(** * shootout.py: speed and accuracy of similarity retrieval methods

    A shallow embedding of [shootout.py] and the properties of its timing
    harness ([profile]), its prediction adapters ([*_predictions]), its
    accuracy evaluator ([get_accuracy], [log_precision]) and the backend
    sequence of its main block.

    Conventions of the embedding.
    - Python floats and numpy floats are taken as exact rationals ([Qc]): the
      theorems are about the arithmetic the program writes down, not about
      rounding.
    - A function that can raise returns [exn + A]; code that also logs, reads
      the clock, reads a module global or touches the shared gensim index runs
      in the monad [M], a state monad over [World] in which the state survives
      an exception.
    - The retrieval libraries (gensim, pyflann, annoy, lsh, sklearn) are not
      part of the program: an index is a record of its methods, which a
      theorem quantifies over. *)

From Stdlib Require Import ZArith QArith Qcanon String List.
From stdpp Require Import base numbers list strings gmap fin_sets sorting.

Local Open Scope string_scope.
Local Open Scope list_scope.
Local Open Scope Z_scope.

(** ** Values *)

(** The exceptions the modelled code can raise; [LibraryError] is whatever a
    retrieval library raises from inside one of its methods. *)
Inductive exn :=
  | ZeroDivisionError
  | ValueError
  | TypeError
  | IndexError
  | NameError
  | UnboundLocalError
  | LibraryError (what : string).

Global Instance exn_eq_dec : EqDecision exn.
Proof. solve_decision. Defined.

(** Code that can raise but touches nothing else. *)
Global Instance exn_ret : MRet (sum exn) := λ A, inr.
Global Instance exn_bind : MBind (sum exn) := λ A B f r,
  match r with
  | inr x => f x
  | inl e => inl e
  end.

(** A dense document vector, and the argument of a library call that takes
    either one vector (a 1-d array) or a matrix of them (a 2-d array). *)
Abbreviation Vec := (list Qc).

Inductive qarg :=
  | One (query : Vec)
  | Many (queries : list Vec).

(** What a duck-typed library call hands back: scalars and sequences (tuples,
    lists and numpy arrays are all sequences here). *)
Inductive value :=
  | VInt (z : Z)
  | VNum (x : Qc)
  | VSeq (items : list value).

Global Instance value_eq_dec : EqDecision value.
Proof.
  refine (fix go (x y : value) {struct x} : Decision (x = y) :=
            match x, y with
            | VInt a, VInt b => cast_if (decide (a = b))
            | VNum a, VNum b => cast_if (decide (a = b))
            | VSeq a, VSeq b => cast_if (@list_eq_dec _ go a b)
            | _, _ => right _
            end); congruence.
Defined.

(** [v[i]] *)
Definition subscript (v : value) (i : nat) : exn + value :=
  match v with
  | VSeq items => match items !! i with Some x => inr x | None => inl IndexError end
  | _ => inl TypeError
  end.

(** An id list as a value, and back: iterating over a prediction, as
    [set.intersection(predicted)] and [for id1 in predicted] do. A scalar is
    not iterable. Document ids are integers: an element of any other kind
    is rejected. *)
Definition ids_value (ids : list Z) : value := VSeq (VInt <$> ids).

Definition as_id (v : value) : exn + Z :=
  match v with VInt z => inr z | _ => inl TypeError end.

Fixpoint as_ids (items : list value) : exn + list Z :=
  match items with
  | [] => inr []
  | v :: rest =>
      match as_id v with
      | inl e => inl e
      | inr z => match as_ids rest with inl e => inl e | inr zs => inr (z :: zs) end
      end
  end.

Definition iter_ids (predicted : value) : exn + list Z :=
  match predicted with
  | VSeq items => as_ids items
  | _ => inl TypeError
  end.

(** The answer of the gensim index to one query: a dense array of
    similarities to every document when [num_best] is [None], the best
    [(id, similarity)] pairs otherwise. *)
Inductive QueryResult :=
  | Dense (sims : list Qc)
  | Best (pairs : list (Z * Qc)).

Global Instance QueryResult_eq_dec : EqDecision QueryResult.
Proof. solve_decision. Defined.

(** ** Library objects *)

(** [gensim.similarities.Similarity]: the attribute the program assigns and
    the methods it calls. [getitem] is [index[query]] on a vector,
    [getitem_batch] is [index[queries]] on a matrix; both read [num_best]. *)
Record Similarity := {
  num_best : option Z;
  getitem : option Z → Vec → exn + QueryResult;
  getitem_batch : option Z → list Vec → exn + list QueryResult;
  vector_by_id : Z → exn + Vec;
}.

Record FlannIndex := { nn_index : qarg → Z → exn + value }.
Record AnnoyIndex := { get_nns_by_vector : Vec → Z → exn + list Z }.
Record LshIndex := { Find : Vec → exn + list (Z * Qc) }.
Record SklearnIndex := {
  kneighbors : qarg → Z → exn + (list (list Qc) * list (list Z));
}.

(** ** The world *)

Abbreviation ref := nat.

Inductive arg :=
  | AStr (s : string)
  | AInt (z : Z)
  | ANum (x : Qc)
  | ANums (xs : list Qc).

(** What a run leaves behind: the lines given to [logger.info] (format string
    and arguments), and a record of every query put to a gensim index. *)
Inductive event :=
  | Info (fmt : string) (args : list arg)
  | Queried (index : ref) (nqueries : nat).

Global Instance arg_eq_dec : EqDecision arg.
Proof. solve_decision. Defined.

Global Instance event_eq_dec : EqDecision event.
Proof. solve_decision. Defined.

(** [heap] holds the gensim index objects, which the program passes around by
    reference; [index_lsh] is the module global of that name, unbound until
    the main block assigns it; [clock] gives the successive readings of
    [time.time()], [reads] of which have been taken. *)
Record World := {
  heap : ref → Similarity;
  index_lsh : option LshIndex;
  clock : nat → Qc;
  reads : nat;
  trace : list event;
}.

Definition M (A : Type) : Type := World → (exn + A) * World.

Global Instance M_ret : MRet M := λ A x w, (inr x, w).
Global Instance M_bind : MBind M := λ A B f m w,
  match m w with
  | (inr x, w') => f x w'
  | (inl e, w') => (inl e, w')
  end.

(** A computation that only reads the world. *)
Definition read {A} (f : World → exn + A) : M A := λ w, (f w, w).

Definition lift {A} (r : exn + A) : M A := read (λ _, r).
Definition raise {A} (e : exn) : M A := lift (inl e).

(** The world with [evs] added to what it has seen. *)
Definition extend_trace (evs : list event) (w : World) : World :=
  {| heap := heap w; index_lsh := index_lsh w; clock := clock w;
     reads := reads w; trace := trace w ++ evs |}.

Definition emit (ev : event) : M unit := λ w, (inr (), extend_trace [ev] w).

(** [logger.info(fmt % args)] *)
Definition info (fmt : string) (args : list arg) : M unit := emit (Info fmt args).

(** What the clock shows, and the world after it has been read. *)
Definition now (w : World) : Qc := clock w (reads w).

Definition tick (w : World) : World :=
  {| heap := heap w; index_lsh := index_lsh w; clock := clock w;
     reads := S (reads w); trace := trace w |}.

(** [time.time()] *)
Definition time : M Qc := λ w, (inr (now w), tick w).

(** The module global [index_lsh]: reading it, and the assignment in the main
    block. *)
Definition global_index_lsh : M LshIndex :=
  read (λ w, match index_lsh w with Some i => inr i | None => inl NameError end).

Definition assign_index_lsh (i : LshIndex) : M unit := λ w,
  (inr (), {| heap := heap w; index_lsh := Some i; clock := clock w;
              reads := reads w; trace := trace w |}).

(** [index.num_best = n] *)
Definition with_num_best (n : option Z) (s : Similarity) : Similarity :=
  {| num_best := n; getitem := getitem s; getitem_batch := getitem_batch s;
     vector_by_id := vector_by_id s |}.

Definition assign_num_best (index : ref) (n : option Z) (w : World) : World :=
  {| heap := λ r, if decide (r = index) then with_num_best n (heap w r) else heap w r;
     index_lsh := index_lsh w; clock := clock w;
     reads := reads w; trace := trace w |}.

Definition set_num_best (index : ref) (n : option Z) : M unit :=
  λ w, (inr (), assign_num_best index n w).

(** [index[query]], [index[queries]] and [index.vector_by_id(id)] on a gensim
    index *)
Definition Similarity_getitem (index : ref) (query : Vec) : M QueryResult :=
  emit (Queried index 1);;
  read (λ w, getitem (heap w index) (num_best (heap w index)) query).

Definition Similarity_getitem_batch (index : ref) (queries : list Vec) : M (list QueryResult) :=
  emit (Queried index (length queries));;
  read (λ w, getitem_batch (heap w index) (num_best (heap w index)) queries).

Definition Similarity_vector_by_id (index : ref) (id : Z) : M Vec :=
  read (λ w, vector_by_id (heap w index) id).

(** ** Loops *)

(** [for x in xs: body(x)] *)
Fixpoint for_each {A} (body : A → M unit) (xs : list A) : M unit :=
  match xs with
  | [] => mret ()
  | x :: rest => body x;; for_each body rest
  end.

(** [[f(x) for x in xs]] *)
Fixpoint comprehension {A B} (f : A → M B) (xs : list A) : M (list B) :=
  match xs with
  | [] => mret []
  | x :: rest => y ← f x; ys ← comprehension f rest; mret (y :: ys)
  end.

(** A loop that carries local variables [s] from one iteration to the next. *)
Fixpoint for_fold {A S} (body : S → A → M S) (s : S) (xs : list A) : M S :=
  match xs with
  | [] => mret s
  | x :: rest => s' ← body s x; for_fold body s' rest
  end.

(** [enumerate(xs, start)] and [enumerate(xs)] *)
Fixpoint enumerate_from {A} (start : nat) (xs : list A) : list (nat * A) :=
  match xs with
  | [] => []
  | x :: rest => (start, x) :: enumerate_from (S start) rest
  end.

Definition enumerate {A} (xs : list A) : list (nat * A) := enumerate_from 0 xs.

(** ** Python and numpy operations the program uses *)

(** [needle in haystack] on strings *)
Fixpoint str_in (needle haystack : string) : bool :=
  String.prefix needle haystack ||
  match haystack with
  | EmptyString => false
  | String _ rest => str_in needle rest
  end.

(** [xs[:n]]: a negative [n] counts from the end. *)
Definition slice_to {A} (n : Z) (xs : list A) : list A :=
  if decide (0 ≤ n) then take (Z.to_nat n) xs
  else take (length xs - Z.to_nat (- n)) xs.

(** [sum(xs)] *)
Definition sum (xs : list Qc) : Qc := foldl Qcplus 0%Qc xs.

(** [min(xs)]: the first smallest element; an empty list has none. *)
Definition py_min (xs : list Qc) : exn + Qc :=
  match xs with
  | [] => inl ValueError
  | x :: rest => inr (foldl (λ m y, if decide (y < m)%Qc then y else m) x rest)
  end.

(** [x / d] for a float [x] and an integer [d] *)
Definition truediv (x : Qc) (d : Z) : exn + Qc :=
  if decide (d = 0) then inl ZeroDivisionError else inr (x / Qc_of_Z d)%Qc.

(** [numpy.dot(a, b)] on two 1-d arrays *)
Definition dot (a b : Vec) : exn + Qc :=
  if decide (length a = length b) then inr (sum (zip_with Qcmult a b))
  else inl ValueError.

(** [a + b] on two 1-d arrays: elementwise on equal lengths, a one-element
    array is broadcast, anything else does not fit. *)
Definition array_add (a b : list Qc) : exn + list Qc :=
  if decide (length a = length b) then inr (zip_with Qcplus a b)
  else match a, b with
       | [x], _ => inr (Qcplus x <$> b)
       | _, [y] => inr ((λ x, x + y)%Qc <$> a)
       | _, _ => inl ValueError
       end.

(** [ids, sims = zip] of the starred result: [zip] of no arguments is the empty
    list, which does not unpack into two names; [zip] refuses floats. *)
Definition unzip_result (r : QueryResult) : exn + (list Z * list Qc) :=
  match r with
  | Best [] => inl ValueError
  | Best pairs => inr (pairs.*1, pairs.*2)
  | Dense [] => inl ValueError
  | Dense _ => inl TypeError
  end.

(** [[pos for pos, _ in result]] *)
Definition positions (r : QueryResult) : exn + list Z :=
  match r with
  | Best pairs => inr pairs.*1
  | Dense [] => inr []
  | Dense _ => inl TypeError
  end.

(** [xs.extend([0.0] * (n - len(xs)))]: a count below one adds nothing. *)
Definition extend_zeros (n : Z) (xs : list Qc) : list Qc :=
  xs ++ replicate (Z.to_nat (n - Z.of_nat (length xs))) 0%Qc.

(** [xs[i]] on a list *)
Definition list_item {A} (xs : list A) (i : nat) : exn + A :=
  match xs !! i with Some x => inr x | None => inl IndexError end.

(** ** The program *)

Definition NUM_QUERIES : Z := 100.
Definition REPEATS : nat := 3.

Section Shootout.

(** [TOP_N] and [ACC] are fixed before any of the functions below runs: the
    main block overwrites their defaults (50, 'high') from the command line
    first thing. *)
Variable TOP_N : Z.
Variable ACC : string.

(** *** Timing *)

(** The decorator [profile]; [name] is [fn.__name__], [fn] the decorated
    function applied to its arguments. *)
Definition profile {A} (name : string) (fn : M A) : M A :=
  info "benchmarking %s at k=%s acc=%s" [AStr name; AInt TOP_N; AStr ACC];;
  '(times, ret) ←
    for_fold (λ '(times, _) _,
                start ← time;
                ret ← fn;
                stop ← time;
                mret (times ++ [(stop - start)%Qc], Some ret))
             ([], None) (seq 0 REPEATS);
  best ← lift (py_min times);
  info "%s took %.3fms/query"
       [AStr name; ANum (Qc_of_Z 1000 * best / Qc_of_Z NUM_QUERIES)%Qc];;
  info "%s raw timings: %s" [AStr name; ANums times];;
  lift (match ret with Some r => inr r | None => inl UnboundLocalError end).

Definition gensim_1by1 (index : ref) (queries : list Vec) : M unit :=
  profile "gensim_1by1"
    (for_each (λ query, Similarity_getitem index query;; mret ()) queries).

Definition gensim_at_once (index : ref) (queries : list Vec) : M unit :=
  profile "gensim_at_once"
    (Similarity_getitem_batch index queries;; mret ()).

Definition flann_1by1 (index : FlannIndex) (queries : list Vec) : M unit :=
  profile "flann_1by1"
    (for_each (λ query, lift (nn_index index (One query) TOP_N);; mret ()) queries).

Definition flann_at_once (index : FlannIndex) (queries : list Vec) : M unit :=
  profile "flann_at_once"
    (lift (nn_index index (Many queries) TOP_N);; mret ()).

Definition sklearn_1by1 (index : SklearnIndex) (queries : list Vec) : M unit :=
  profile "sklearn_1by1"
    (for_each (λ query, lift (kneighbors index (One query) TOP_N);; mret ()) queries).

Definition sklearn_at_once (index : SklearnIndex) (queries : list Vec) : M unit :=
  profile "sklearn_at_once"
    (lift (kneighbors index (Many queries) TOP_N);; mret ()).

Definition annoy_1by1 (index : AnnoyIndex) (queries : list Vec) : M unit :=
  profile "annoy_1by1"
    (for_each (λ query, lift (get_nns_by_vector index query TOP_N);; mret ()) queries).

Definition lsh_1by1 (index : LshIndex) (queries : list Vec) : M unit :=
  profile "lsh_1by1"
    (for_each (λ query, found ← lift (Find index query);
                        let _ := slice_to TOP_N found in mret ()) queries).

(** *** Predictions *)

Definition flann_predictions (index : FlannIndex) (queries : list Vec) : M (list value) :=
  if decide (TOP_N = 1) then
    comprehension (λ query, r ← lift (nn_index index (One query) TOP_N);
                            lift (subscript r 0)) queries
  else
    comprehension (λ query, r ← lift (nn_index index (One query) TOP_N);
                            r0 ← lift (subscript r 0);
                            lift (subscript r0 0)) queries.

Definition sklearn_predictions (index : SklearnIndex) (queries : list Vec) : M (list value) :=
  comprehension (λ query, r ← lift (kneighbors index (One query) TOP_N);
                          mret (ids_value (concat r.2))) queries.

Definition annoy_predictions (index : AnnoyIndex) (queries : list Vec) : M (list value) :=
  comprehension (λ query, ids ← lift (get_nns_by_vector index query TOP_N);
                          mret (ids_value ids)) queries.

(** The body reads the module global [index_lsh], not the parameter. *)
Definition lsh_predictions (index : LshIndex) (queries : list Vec) : M (list value) :=
  comprehension (λ query, index_lsh ← global_index_lsh;
                          found ← lift (Find index_lsh query);
                          mret (ids_value (slice_to TOP_N found).*1)) queries.

Definition gensim_predictions (index : ref) (queries : list Vec) : M (list value) :=
  comprehension (λ query, r ← Similarity_getitem index query;
                          ids ← lift (positions r);
                          mret (ids_value ids)) queries.

(** *** Accuracy *)

(** Line 125: the expected ids and similarities of one query, from the gensim
    index or from [expecteds]. *)
Definition ground_truth (gensim_index : ref)
    (expecteds : option (list (list Z * list Qc)))
    (query_no : nat) (query : Vec) : M (list Z * list Qc) :=
  match expecteds with
  | None => r ← Similarity_getitem gensim_index query; lift (unzip_result r)
  | Some expecteds => lift (list_item expecteds query_no)
  end.

(** [len(set(expected_ids).intersection(predicted))] *)
Definition overlap (expected_ids predicted : list Z) : nat :=
  size ((list_to_set expected_ids : gset Z) ∩ list_to_set predicted).

(** Lines 127-129: the similarity of every predicted id, recomputed, padded
    with zeros up to [TOP_N]. *)
Definition similarities (gensim_index : ref) (query : Vec) (predicted : list Z)
    : M (list Qc) :=
  predicted_sims ←
    comprehension (λ id1, v ← Similarity_vector_by_id gensim_index id1;
                          lift (dot v query)) predicted;
  mret (extend_zeros TOP_N predicted_sims).

(** One turn of the loop of [get_accuracy], on the locals [correct] and
    [diffs]. *)
Definition accuracy_step (gensim_index : ref)
    (expecteds : option (list (list Z * list Qc)))
    (locals : Qc * list Qc) (item : nat * (value * Vec)) : M (Qc * list Qc) :=
  let '(correct, diffs) := locals in
  let '(query_no, (predicted, query)) := item in
  '(expected_ids, expected_sims) ← ground_truth gensim_index expecteds query_no query;
  predicted ← lift (iter_ids predicted);
  let correct := (correct + Qc_of_Z (Z.of_nat (overlap expected_ids predicted)))%Qc in
  predicted_sims ← similarities gensim_index query predicted;
  d ← lift (array_add (Qcopp <$> predicted_sims) expected_sims);
  mret (correct, diffs ++ d).

Definition accuracy_loop (predicted_ids : list value) (queries : list Vec)
    (gensim_index : ref) (expecteds : option (list (list Z * list Qc)))
    : M (Qc * list Qc) :=
  for_fold (accuracy_step gensim_index expecteds) (0%Qc, [])
           (enumerate (zip predicted_ids queries)).

Definition get_accuracy (predicted_ids : list value) (queries : list Vec)
    (gensim_index : ref) (expecteds : option (list (list Z * list Qc)))
    : M (Qc * Qc) :=
  info "computing ground truth" [];;
  set_num_best gensim_index (Some TOP_N);;
  '(correct, diffs) ← accuracy_loop predicted_ids queries gensim_index expecteds;
  precision ← lift (truediv correct (TOP_N * Z.of_nat (length queries)));
  avg_diff ← lift (truediv (1 * sum diffs) (Z.of_nat (length diffs)));
  mret (precision, avg_diff).

(** [name] is [method.__name__]. *)
Definition log_precision {I} (name : string) (method : I → list Vec → M (list value))
    (index : I) (queries : list Vec) (gensim_index : ref)
    (expecteds : option (list (list Z * list Qc))) : M unit :=
  info "computing accuracy of %s at k=%s, acc=%s" [AStr name; AInt TOP_N; AStr ACC];;
  predicted_ids ← method index queries;
  '(acc, diffs) ← get_accuracy predicted_ids queries gensim_index expecteds;
  info "%s precision=%.3f, avg diff=%.3f" [AStr name; ANum acc; ANum diffs].

(** *** The main block, lines 202-279 *)

(** Lines 147-200 read the command line, the corpus and the gensim index from
    disk; what they produce ([program], [queries], [index_gensim]) is given.
    So is the outcome of each backend's import and build-or-load step (lines
    208-220, 228-241, 247-257, 264-272), which depends on the file system and
    on the library: it may log, and it may raise. *)
Record Builds := {
  build_flann : M FlannIndex;
  build_annoy : M AnnoyIndex;
  build_lsh : M LshIndex;
  build_sklearn : M SklearnIndex;
}.

Inductive backend := Gensim | Flann | Annoy | Lsh | Sklearn.

(** [if cond: body] *)
Definition when (cond : bool) (body : M unit) : M unit :=
  if cond then body else mret ().

Section Main.

Variable program : string.
Variable builds : Builds.
Variable queries : list Vec.
Variable index_gensim : ref.

Definition gensim_block : M unit :=
  gensim_at_once index_gensim queries;;
  gensim_1by1 index_gensim queries.

Definition flann_block : M unit :=
  index_flann ← build_flann builds;
  info "finished FLANN index" [];;
  log_precision "flann_predictions" flann_predictions index_flann queries index_gensim None;;
  flann_1by1 index_flann queries;;
  flann_at_once index_flann queries.

Definition annoy_block : M unit :=
  index_annoy ← build_annoy builds;
  log_precision "annoy_predictions" annoy_predictions index_annoy queries index_gensim None;;
  annoy_1by1 index_annoy queries.

Definition lsh_block : M unit :=
  index_lsh ← build_lsh builds;
  assign_index_lsh index_lsh;;
  info "finished lsh index" [];;
  log_precision "lsh_predictions" lsh_predictions index_lsh queries index_gensim None;;
  lsh_1by1 index_lsh queries.

Definition sklearn_block : M unit :=
  index_sklearn ← build_sklearn builds;
  info "finished sklearn index" [];;
  log_precision "sklearn_predictions" sklearn_predictions index_sklearn queries index_gensim None;;
  sklearn_1by1 index_sklearn queries;;
  sklearn_at_once index_sklearn queries.

Definition main : M unit :=
  when (str_in "gensim" program) gensim_block;;
  when (str_in "flann" program) flann_block;;
  when (str_in "annoy" program) annoy_block;;
  when (str_in "lsh" program) lsh_block;;
  when (str_in "sklearn" program) sklearn_block;;
  info "finished running %s" [AStr program].

(** The same sequence, one backend at a time. *)
Definition keyword (b : backend) : string :=
  match b with
  | Gensim => "gensim" | Flann => "flann" | Annoy => "annoy"
  | Lsh => "lsh" | Sklearn => "sklearn"
  end.



Definition backends : list backend := [Gensim; Flann; Annoy; Lsh; Sklearn].

End Main.

End Shootout.


(** ** The evaluator on a fixed index

    While the loop of [get_accuracy] runs, the gensim index object stays as
    line 123 left it, and what the loop computes is a function of that object.
    The definitions below are that function: lines 125-130 read off an index
    object [s] rather than a reference into the world. [accuracy_loop_run]
    proves that the loop of the program computes exactly this. *)
Section Evaluator.

Variable TOP_N : Z.
Variable s : Similarity.
Variable expecteds : option (list (list Z * list Qc)).

Definition expected_of (query_no : nat) (query : Vec) : exn + (list Z * list Qc) :=
  match expecteds with
  | None => r ← getitem s (num_best s) query; unzip_result r
  | Some expecteds => list_item expecteds query_no
  end.

Definition recomputed_sims (query : Vec) (predicted : list Z) : exn + list Qc :=
  predicted_sims ← mapM (λ id1, v ← vector_by_id s id1; dot v query) predicted;
  mret (extend_zeros TOP_N predicted_sims).

Definition pure_step (locals : Qc * list Qc) (item : nat * (value * Vec))
    : exn + (Qc * list Qc) :=
  let '(correct, diffs) := locals in
  let '(query_no, (predicted, query)) := item in
  '(expected_ids, expected_sims) ← expected_of query_no query;
  predicted ← iter_ids predicted;
  predicted_sims ← recomputed_sims query predicted;
  d ← array_add (Qcopp <$> predicted_sims) expected_sims;
  mret ((correct + Qc_of_Z (Z.of_nat (overlap expected_ids predicted)))%Qc, diffs ++ d).

Fixpoint pure_loop (locals : Qc * list Qc) (items : list (nat * (value * Vec)))
    : exn + (Qc * list Qc) :=
  match items with
  | [] => inr locals
  | item :: rest => locals' ← pure_step locals item; pure_loop locals' rest
  end.

(** How many turns of the loop start: all of them, or those up to the one
    that raises. *)
Fixpoint started (locals : Qc * list Qc) (items : list (nat * (value * Vec))) : nat :=
  match items with
  | [] => 0
  | item :: rest =>
      S (match pure_step locals item with
         | inr locals' => started locals' rest
         | inl _ => 0
         end)
  end.

(** The queries the loop puts to the index at [gensim_index]: one for every
    turn that starts, none when [expecteds] is given. *)
Definition asked (gensim_index : ref) (locals : Qc * list Qc)
    (items : list (nat * (value * Vec))) : list event :=
  match expecteds with
  | None => replicate (started locals items) (Queried gensim_index 1)
  | Some _ => []
  end.

End Evaluator.

(** What [get_accuracy] returns, read off the index object as line 123 leaves
    it. *)
Definition pure_accuracy (TOP_N : Z) (s : Similarity)
    (expecteds : option (list (list Z * list Qc)))
    (predicted_ids : list value) (queries : list Vec) : exn + (Qc * Qc) :=
  '(correct, diffs) ← pure_loop TOP_N s expecteds (0%Qc, [])
                                (enumerate (zip predicted_ids queries));
  precision ← truediv correct (TOP_N * Z.of_nat (length queries));
  avg_diff ← truediv (1 * sum diffs) (Z.of_nat (length diffs));
  mret (precision, avg_diff).

(** The expected ids of a query, nothing where there is no ground truth. *)
Definition expected_ids (s : Similarity)
    (expecteds : option (list (list Z * list Qc))) (query_no : nat) (query : Vec)
    : list Z :=
  match expected_of s expecteds query_no query with
  | inr (ids, _) => ids
  | inl _ => []
  end.

(** The expected similarities of a query, likewise. *)
Definition expected_sims (s : Similarity)
    (expecteds : option (list (list Z * list Qc))) (query_no : nat) (query : Vec)
    : list Qc :=
  match expected_of s expecteds query_no query with
  | inr (_, sims) => sims
  | inl _ => []
  end.

(** A turn of the loop whose prediction is a list of ids. *)
Definition boxed (item : nat * (list Z * Vec)) : nat * (value * Vec) :=
  (item.1, (ids_value item.2.1, item.2.2)).

(** The sum, over the turns of the loop, of the number of ids that are both
    predicted and expected. *)
Definition hits (s : Similarity) (expecteds : option (list (list Z * list Qc)))
    (items : list (nat * (list Z * Vec))) : nat :=
  sum_list_with (λ item, overlap (expected_ids s expecteds item.1 item.2.2) item.2.1)
                items.

(** How many query vectors a trace shows to have been put to the index at
    [index]. *)
Definition oracle_queries (index : ref) (t : list event) : nat :=
  sum_list_with (λ ev, match ev with
                       | Queried index' n => if decide (index' = index) then n else 0%nat
                       | Info _ _ => 0%nat
                       end) t.

(** ** Sample objects

    Small concrete indexes and worlds, on which the theorems below are run. *)

(** The ranking of the pairs [(id, similarity)]: higher similarity first. *)
Definition more_similar (x y : Z * Qc) : Prop := (y.2 ≤ x.2)%Qc.

Global Instance more_similar_dec : RelDecision more_similar :=
  λ x y, decide (y.2 ≤ x.2)%Qc.

(** An exact index over [docs]: the similarity of a document to a query is
    their dot product, and with [num_best = n] the answer is the [n] most
    similar documents, best first. *)
Definition exact_answer (docs : list Vec) (nb : option Z) (query : Vec)
    : exn + QueryResult :=
  sims ← mapM (λ doc, dot doc query) docs;
  mret (match nb with
        | None => Dense sims
        | Some n =>
            Best (slice_to n (merge_sort more_similar
                                         (prod_map Z.of_nat id <$> enumerate sims)))
        end).

Definition exact_index (docs : list Vec) : Similarity :=
  {| num_best := None;
     getitem := exact_answer docs;
     getitem_batch := λ nb queries, mapM (exact_answer docs nb) queries;
     vector_by_id := λ id, if decide (0 ≤ id) then list_item docs (Z.to_nat id)
                           else inl IndexError |}.

(** A world whose every gensim reference is the index [s], with nothing
    logged yet and a clock that advances one second per reading. *)
Definition world_of (s : Similarity) : World :=
  {| heap := λ _, s; index_lsh := None;
     clock := λ n, Qc_of_Z (Z.of_nat n); reads := 0; trace := [] |}.

Definition half : Qc := Q2Qc (1 # 2).

(** Two documents in one dimension, and one. *)
Definition two_docs : list Vec := [[1%Qc]; [half]].
Definition one_doc : list Vec := [[1%Qc]].

(** One query, the unit vector. *)
Definition unit_query : list Vec := [[1%Qc]].

(** A flann index in the shape pyflann answers one query in when asked for one
    neighbour: the pair of a flat array of ids and a flat array of distances,
    one entry per query point. *)
Definition flann_flat (id : Z) (score : Qc) : FlannIndex :=
  {| nn_index := λ _ _, inr (VSeq [VSeq [VInt id]; VSeq [VNum score]]) |}.

(** A backend that answers with the bare pair [(id, score)]. *)
Definition flann_bare (id : Z) (score : Qc) : FlannIndex :=
  {| nn_index := λ _ _, inr (VSeq [VInt id; VNum score]) |}.

(** An lsh index that finds the same candidates for every query. *)
Definition lsh_finding (found : list (Z * Qc)) : LshIndex :=
  {| Find := λ _, inr found |}.

(** A flann index in the shape pyflann answers in when asked for more than
    one neighbour: a pair of arrays with one row per query point. *)
Definition flann_nested (ids : list Z) : FlannIndex :=
  {| nn_index := λ _ _, inr (VSeq [VSeq [ids_value ids]; VSeq [VSeq []]]) |}.

(** A flann index whose every query raises. *)
Definition flann_failing : FlannIndex :=
  {| nn_index := λ _ _, inl (LibraryError "FLANNException") |}.

(** An annoy index that returns the first [n] of [ids] for every query. *)
Definition annoy_returning (ids : list Z) : AnnoyIndex :=
  {| get_nns_by_vector := λ _ n, inr (slice_to n ids) |}.

(** The libraries of a run in which flann and annoy load; lsh and sklearn
    are not installed. *)
Definition builds_with (flann : FlannIndex) : Builds :=
  {| build_flann := mret flann;
     build_annoy := mret (annoy_returning [0; 1]);
     build_lsh := raise (LibraryError "ImportError");
     build_sklearn := raise (LibraryError "ImportError") |}.


(** ** The similarities of a prediction *)

(** The similarities line 130 subtracts for one prediction: those of lines
    127-129, nothing where they cannot be computed. *)
Definition predicted_sims (TOP_N : Z) (s : Similarity) (predicted : value)
    (query : Vec) : list Qc :=
  match iter_ids predicted ≫= recomputed_sims TOP_N s query with
  | inr sims => sims
  | inl _ => []
  end.

(** ** The title index, lines 140-144 and 198-199 *)

(** [title.lower()] on a byte string: the ASCII capitals are replaced. *)
Definition lower_char (c : Ascii.ascii) : Ascii.ascii :=
  let n := Ascii.nat_of_ascii c in
  if (65 <=? n)%nat && (n <=? 90)%nat then Ascii.ascii_of_nat (n + 32) else c.

Fixpoint lower (s : string) : string :=
  match s with
  | EmptyString => EmptyString
  | String c rest => String (lower_char c) (lower rest)
  end.

(** Line 199: [dict((title.lower(), pos) for pos, title in enumerate(id2title))];
    a later pair replaces an earlier one with the same key. *)
Definition title2id_of (id2title : list string) : gmap string nat :=
  foldl (λ d item, <[lower item.2 := item.1]> d) ∅ (enumerate id2title).

(** [xs[i]] for an integer [i] of either sign: a negative index counts from
    the end. *)
Definition py_item {A} (xs : list A) (i : Z) : exn + A :=
  if decide (0 ≤ i) then list_item xs (Z.to_nat i)
  else if decide (- Z.of_nat (length xs) ≤ i)
       then list_item xs (Z.to_nat (Z.of_nat (length xs) + i))
       else inl IndexError.

(** What the [print] statement writes to standard output, item by item. *)
Inductive token :=
  | TInt (z : Z)
  | TRepr (s : string)
  | TNum (x : Qc)
  | TNewline.

Global Instance token_eq_dec : EqDecision token.
Proof. solve_decision. Defined.

(** What [print_similar] can raise: [KeyError] from the dictionary lookup, or
    whatever the rest of it raises. *)
Inductive print_exn :=
  | KeyError (key : string)
  | Raised (e : exn).

Global Instance print_exn_eq_dec : EqDecision print_exn.
Proof. solve_decision. Defined.

(** The loop of [print_similar] over the pairs of the answer. An item is
    written as soon as it is evaluated: [pos2] is out before [id2title[pos2]]
    is looked up. *)
Fixpoint print_pairs (id2title : list string) (pairs : list (Z * Qc))
    (out : list token) : list token * (exn + unit) :=
  match pairs with
  | [] => (out, inr ())
  | (pos2, sim) :: rest =>
      match py_item id2title pos2 with
      | inl e => (out ++ [TInt pos2], inl e)
      | inr title =>
          print_pairs id2title rest
                      (out ++ [TInt pos2; TRepr title; TNum sim; TNewline])
      end
  end.

(** [print_similar]: the output written, how it ended, and the world left. *)
Definition print_similar (title : string) (index_gensim : ref)
    (id2title : list string) (title2id : gmap string nat)
    : World → (list token * (print_exn + unit)) * World :=
  λ w,
    match title2id !! lower title with
    | None => (([], inl (KeyError (lower title))), w)
    | Some pos =>
        match (v ← Similarity_vector_by_id index_gensim (Z.of_nat pos);
               Similarity_getitem index_gensim v) w with
        | (inl e, w') => (([], inl (Raised e)), w')
        | (inr (Best pairs), w') =>
            let '(out, r) := print_pairs id2title pairs [] in
            ((out, match r with inl e => inl (Raised e) | inr _ => inr () end), w')
        | (inr (Dense []), w') => (([], inr ()), w')
        | (inr (Dense (_ :: _)), w') => (([], inl (Raised TypeError)), w')
        end
    end.

(** ** Further sample objects *)

(** Sample titles. *)
Definition sample_titles : list string := ["Anarchism"; "Autism"].

(** An index that keeps the vectors of [docs] but whose every query raises. *)
Definition mute_index (docs : list Vec) : Similarity :=
  {| num_best := None;
     getitem := λ _ _, inl (LibraryError "query refused");
     getitem_batch := λ _ _, inl (LibraryError "query refused");
     vector_by_id := vector_by_id (exact_index docs) |}.

(** * Properties *)

(** ** Running computations *)

(** Settles a decidable statement about a concrete run by running it. *)
Ltac by_run := apply (bool_decide_unpack _); vm_compute; exact I.

Lemma bind_run {A B} (m : M A) (k : A → M B) (w : World) :
  (m ≫= k) w = match m w with
               | (inr x, w') => k x w'
               | (inl e, w') => (inl e, w')
               end.
Proof. reflexivity. Qed.

Lemma extend_trace_app (evs1 evs2 : list event) (w : World) :
  extend_trace evs2 (extend_trace evs1 w) = extend_trace (evs1 ++ evs2) w.
Proof. unfold extend_trace. simpl. by rewrite app_assoc. Qed.

Lemma extend_trace_nil (w : World) : extend_trace [] w = w.
Proof. destruct w. unfold extend_trace. simpl. by rewrite app_nil_r. Qed.

Lemma iter_ids_value (ids : list Z) : iter_ids (ids_value ids) = inr ids.
Proof.
  unfold ids_value, iter_ids.
  induction ids as [|z ids IH]; [done|].
  rewrite fmap_cons. simpl. by rewrite IH.
Qed.

Lemma ret_run {A} (x : A) (w : World) : (mret x : M A) w = (inr x, w).
Proof. reflexivity. Qed.

Lemma read_run {A} (f : World → exn + A) (w : World) : read f w = (f w, w).
Proof. reflexivity. Qed.

Lemma lift_run {A} (r : exn + A) (w : World) : lift r w = (r, w).
Proof. reflexivity. Qed.

Lemma info_run (fmt : string) (args : list arg) (w : World) :
  info fmt args w = (inr (), extend_trace [Info fmt args] w).
Proof. reflexivity. Qed.

Lemma time_run (w : World) : time w = (inr (now w), tick w).
Proof. reflexivity. Qed.

Lemma vector_by_id_run (index : ref) (id : Z) (w : World) :
  Similarity_vector_by_id index id w = (vector_by_id (heap w index) id, w).
Proof. reflexivity. Qed.

Lemma getitem_run (index : ref) (query : Vec) (w : World) :
  Similarity_getitem index query w
  = (getitem (heap w index) (num_best (heap w index)) query,
     extend_trace [Queried index 1] w).
Proof. reflexivity. Qed.

Lemma recompute_run (gensim_index : ref) (query : Vec) (predicted : list Z)
    (w : World) :
  comprehension
    (λ id1, v ← Similarity_vector_by_id gensim_index id1; lift (dot v query))
    predicted w
  = (mapM (λ id1, v ← vector_by_id (heap w gensim_index) id1; dot v query)
          predicted, w).
Proof.
  induction predicted as [|id1 rest IH]; [done|].
  simpl. rewrite !bind_run, vector_by_id_run.
  destruct (vector_by_id (heap w gensim_index) id1) as [e|v]; [done|].
  rewrite lift_run. simpl.
  destruct (dot v query) as [e|x]; [done|].
  rewrite bind_run, IH. simpl.
  destruct (mapM _ rest); by rewrite ?ret_run.
Qed.

Lemma similarities_run (TOP_N : Z) (gensim_index : ref) (query : Vec)
    (predicted : list Z) (w : World) :
  similarities TOP_N gensim_index query predicted w
  = (recomputed_sims TOP_N (heap w gensim_index) query predicted, w).
Proof.
  unfold similarities, recomputed_sims.
  rewrite bind_run, recompute_run.
  by destruct (mapM _ predicted).
Qed.

Lemma ground_truth_run (gensim_index : ref)
    (expecteds : option (list (list Z * list Qc))) (query_no : nat) (query : Vec)
    (w : World) :
  ground_truth gensim_index expecteds query_no query w
  = (expected_of (heap w gensim_index) expecteds query_no query,
     extend_trace (match expecteds with
                   | None => [Queried gensim_index 1]
                   | Some _ => []
                   end) w).
Proof.
  unfold ground_truth, expected_of. destruct expecteds as [e|].
  - by rewrite lift_run, extend_trace_nil.
  - rewrite bind_run, getitem_run. simpl.
    by destruct (getitem _ _ _).
Qed.

Lemma accuracy_step_run (TOP_N : Z) (gensim_index : ref)
    (expecteds : option (list (list Z * list Qc)))
    (locals : Qc * list Qc) (item : nat * (value * Vec)) (w : World) :
  accuracy_step TOP_N gensim_index expecteds locals item w
  = (pure_step TOP_N (heap w gensim_index) expecteds locals item,
     extend_trace (match expecteds with
                   | None => [Queried gensim_index 1]
                   | Some _ => []
                   end) w).
Proof.
  destruct locals as [correct diffs], item as [query_no [predicted query]].
  unfold accuracy_step, pure_step.
  rewrite bind_run, ground_truth_run.
  destruct (expected_of _ _ _ _) as [e|[expected_ids expected_sims]]; [done|].
  simpl. rewrite bind_run, lift_run.
  destruct (iter_ids predicted) as [e|ids]; [done|].
  simpl. rewrite bind_run, similarities_run.
  destruct (recomputed_sims _ _ _ _) as [e|sims]; [done|].
  simpl. rewrite bind_run, lift_run.
  by destruct (array_add _ _).
Qed.

Lemma accuracy_loop_run (TOP_N : Z) (gensim_index : ref)
    (expecteds : option (list (list Z * list Qc)))
    (items : list (nat * (value * Vec))) (locals : Qc * list Qc) (w : World) :
  for_fold (accuracy_step TOP_N gensim_index expecteds) locals items w
  = (pure_loop TOP_N (heap w gensim_index) expecteds locals items,
     extend_trace
       (asked TOP_N (heap w gensim_index) expecteds gensim_index locals items) w).
Proof.
  revert locals w. induction items as [|item rest IH]; intros locals w.
  - simpl. rewrite ret_run. unfold asked. simpl.
    destruct expecteds; by rewrite extend_trace_nil.
  - simpl. rewrite bind_run, accuracy_step_run.
    destruct (pure_step _ _ _ _ _) as [e|locals'] eqn:Hstep.
    + unfold asked. simpl. rewrite Hstep. by destruct expecteds.
    + rewrite IH. simpl. rewrite extend_trace_app. f_equal. f_equal.
      unfold asked. simpl. rewrite Hstep. by destruct expecteds.
Qed.

Lemma get_accuracy_run (TOP_N : Z) (predicted_ids : list value) (queries : list Vec)
    (gensim_index : ref) (expecteds : option (list (list Z * list Qc))) (w : World) :
  let s := with_num_best (Some TOP_N) (heap w gensim_index) in
  get_accuracy TOP_N predicted_ids queries gensim_index expecteds w
  = (pure_accuracy TOP_N s expecteds predicted_ids queries,
     extend_trace
       (asked TOP_N s expecteds gensim_index (0%Qc, [])
              (enumerate (zip predicted_ids queries)))
       (assign_num_best gensim_index (Some TOP_N)
          (extend_trace [Info "computing ground truth" []] w))).
Proof.
  intros s. unfold get_accuracy, pure_accuracy, accuracy_loop.
  rewrite bind_run, info_run. simpl.
  rewrite bind_run. unfold set_num_best at 1. simpl.
  rewrite bind_run, accuracy_loop_run. simpl.
  rewrite decide_True by done. fold s.
  destruct (pure_loop _ _ _ _ _) as [e|[correct diffs]]; [done|].
  simpl. rewrite bind_run, lift_run.
  destruct (truediv correct _) as [e|precision]; [done|].
  simpl. rewrite bind_run, lift_run.
  by destruct (truediv _ _) as [e|avg_diff].
Qed.

(** ** What a call of [get_accuracy] does to the index *)

(** C9: every call of [get_accuracy], whether it returns or raises, leaves the
    gensim index it was given with [num_best] set to [TOP_N] and otherwise as
    it was (every other index object is untouched); the change outlives the
    call, so any later query through the same index, such as the queries of
    [gensim_1by1], is answered in the shape for [num_best = TOP_N], whatever
    [num_best] was before. *)
Theorem get_accuracy_sets_num_best (TOP_N : Z) (predicted_ids : list value)
    (queries : list Vec) (gensim_index : ref)
    (expecteds : option (list (list Z * list Qc))) (w : World) :
  let w' := (get_accuracy TOP_N predicted_ids queries gensim_index expecteds w).2 in
  heap w' gensim_index = with_num_best (Some TOP_N) (heap w gensim_index)
  ∧ num_best (heap w' gensim_index) = Some TOP_N
  ∧ (∀ other : ref, other ≠ gensim_index → heap w' other = heap w other)
  ∧ ∀ query : Vec,
      (Similarity_getitem gensim_index query w').1
      = getitem (heap w gensim_index) (Some TOP_N) query.
Proof.
  intros w'. subst w'. rewrite get_accuracy_run. simpl.
  rewrite decide_True by done.
  repeat split; try done.
  intros other Hother. by rewrite decide_False.
Qed.

(** On an index that was built without [num_best], a query is answered with
    the dense array before an evaluation and with the best pairs after it. *)
Example query_shape_after_evaluation :
  let w := world_of (exact_index two_docs) in
  (Similarity_getitem 0%nat [1%Qc] w).1 = inr (Dense [1%Qc; half])
  ∧ (Similarity_getitem 0%nat [1%Qc] (get_accuracy 1 [] [] 0%nat None w).2).1
    = inr (Best [(0, 1%Qc)]).
Proof. split; by_run. Qed.

(** ** No queries *)

Lemma zip_nil_r {A B} (xs : list A) : zip xs ([] : list B) = [].
Proof. by destruct xs. Qed.

(** C10: with an empty query sequence [get_accuracy] raises
    [ZeroDivisionError] and returns nothing: the loop does not turn, so
    [diffs] stays empty, and both the precision denominator
    [TOP_N * len(queries)] and the deviation denominator [len(diffs)] are
    zero. *)
Theorem get_accuracy_no_queries (TOP_N : Z) (predicted_ids : list value)
    (gensim_index : ref) (expecteds : option (list (list Z * list Qc)))
    (w : World) :
  (get_accuracy TOP_N predicted_ids [] gensim_index expecteds w).1
  = inl ZeroDivisionError
  ∧ (accuracy_loop TOP_N predicted_ids [] gensim_index expecteds w).1
    = inr (0%Qc, [])
  ∧ (∀ correct : Qc,
       truediv correct (TOP_N * Z.of_nat (length ([] : list Vec)))
       = inl ZeroDivisionError)
  ∧ truediv (1 * sum []) (Z.of_nat (length ([] : list Qc)))
    = inl ZeroDivisionError.
Proof.
  assert (∀ correct : Qc,
            truediv correct (TOP_N * Z.of_nat (length ([] : list Vec)))
            = inl ZeroDivisionError) as Hdiv.
  { intros correct. unfold truediv. simpl. by rewrite Z.mul_0_r. }
  split; [|split; [|split]]; try done.
  - rewrite get_accuracy_run. unfold pure_accuracy. simpl.
    rewrite zip_nil_r. simpl. by rewrite Hdiv.
  - unfold accuracy_loop. by rewrite zip_nil_r.
Qed.

(** ** Code that can raise: lists *)

Section Raising.

Context {A B : Type} (f : A → exn + B).

Lemma mapM_cons_inr (x : A) (l : list A) (k : list B) :
  mapM f (x :: l) = inr k ↔ ∃ y k0, f x = inr y ∧ mapM f l = inr k0 ∧ k = y :: k0.
Proof.
  simpl. unfold mbind, exn_bind, mret, exn_ret.
  destruct (f x) as [e|y]; [split; [done|by intros (?&?&?&_)]|].
  destruct (mapM f l) as [e|k0].
  - split; [done|]. by intros (?&?&_&?&_).
  - split.
    + intros [= <-]. by exists y, k0.
    + intros (y'&k0'&[= <-]&[= <-]&->). done.
Qed.

Lemma mapM_inr_length (l : list A) (k : list B) :
  mapM f l = inr k → length k = length l.
Proof.
  revert k. induction l as [|x l IH]; intros k.
  - by intros [= <-].
  - intros (y&k0&_&Hk0&->)%mapM_cons_inr. simpl. by rewrite (IH k0).
Qed.

(** Whether [[f(x) for x in l]] raises does not depend on the order of [l]. *)
Lemma mapM_inr_perm (l l' : list A) (k : list B) :
  l ≡ₚ l' → mapM f l = inr k → ∃ k', mapM f l' = inr k' ∧ length k' = length k.
Proof.
  intros Hperm. revert k.
  induction Hperm as [|x l l' _ IH|x y l|l l' l'' _ IH1 _ IH2]; intros k.
  - intros [= <-]. by exists [].
  - intros (z&k0&Hx&Hk0&->)%mapM_cons_inr.
    destruct (IH k0 Hk0) as (k0'&Hk0'&Hlen).
    exists (z :: k0'). split; [|simpl; by rewrite Hlen].
    apply mapM_cons_inr. by exists z, k0'.
  - intros (zy&k1&Hy&(zx&k0&Hx&Hk0&->)%mapM_cons_inr&->)%mapM_cons_inr.
    exists (zx :: zy :: k0). split; [|done].
    apply mapM_cons_inr. exists zx, (zy :: k0). split; [done|]. split; [|done].
    apply mapM_cons_inr. by exists zy, k0.
  - intros Hk. destruct (IH1 k Hk) as (k'&Hk'&Hlen').
    destruct (IH2 k' Hk') as (k''&Hk''&Hlen'').
    exists k''. split; [done|congruence].
Qed.

End Raising.

(** ** numpy addition *)

Lemma array_add_same_length (a b : list Qc) :
  length a = length b → array_add a b = inr (zip_with Qcplus a b).
Proof. intros Hlen. unfold array_add. by rewrite decide_True. Qed.

(** Whether two arrays can be added, and how long the sum is, depends on
    their lengths only. *)
Lemma array_add_length (a a' b r : list Qc) :
  array_add a b = inr r → length a' = length a →
  ∃ r', array_add a' b = inr r' ∧ length r' = length r.
Proof.
  unfold array_add. intros Hr Hlen.
  destruct (decide (length a = length b)) as [Hab|Hab].
  - injection Hr as <-. rewrite decide_True by congruence.
    eexists. split; [done|]. rewrite !length_zip_with. lia.
  - rewrite decide_False by congruence.
    destruct a as [|x [|x2 a]], a' as [|x' [|x2' a']]; simplify_eq/=;
      destruct b as [|y [|y2 b]]; simplify_eq/=;
      eexists; (split; [done|]); simpl; rewrite ?length_fmap; lia.
Qed.

(** Adding to an array of zeros. *)
Lemma zip_with_zeros (n : nat) (b : list Qc) :
  length b = n → zip_with Qcplus (Qcopp <$> replicate n 0%Qc) b = b.
Proof.
  revert b. induction n as [|n IH]; intros [|y b] Hlen; simplify_eq/=; [done|].
  f_equal; [|by apply IH]. by rewrite Qcplus_0_l.
Qed.

(** ** Arithmetic *)

Lemma sum_app (xs ys : list Qc) : sum (xs ++ ys) = (sum xs + sum ys)%Qc.
Proof.
  unfold sum. rewrite foldl_app.
  generalize (foldl Qcplus 0%Qc xs) as acc.
  induction ys as [|y ys IH]; intros acc; simpl.
  - by rewrite Qcplus_0_r.
  - rewrite IH. rewrite (IH (0 + y)%Qc), Qcplus_0_l. by rewrite Qcplus_assoc.
Qed.

Lemma sum_zeros (xs : list Qc) : Forall (λ x, x = 0%Qc) xs → sum xs = 0%Qc.
Proof.
  induction 1 as [|x xs Hx _ IH]; [done|].
  subst x. change (0%Qc :: xs) with ([0%Qc] ++ xs).
  rewrite sum_app, IH. unfold sum. simpl. by rewrite !Qcplus_0_l.
Qed.

(** ** The loop of the evaluator *)

Lemma length_enumerate_from {A} (start : nat) (xs : list A) :
  length (enumerate_from start xs) = length xs.
Proof. revert start. induction xs as [|x xs IH]; intros start; simpl; by rewrite ?IH. Qed.

Lemma enumerate_zip_boxed (predicted_ids : list (list Z)) (queries : list Vec) :
  enumerate (zip (ids_value <$> predicted_ids) queries)
  = boxed <$> enumerate (zip predicted_ids queries).
Proof.
  unfold enumerate. generalize 0%nat as start. revert queries.
  induction predicted_ids as [|p ps IH]; intros [|q qs] start; try done.
  rewrite fmap_cons. simpl. by rewrite IH.
Qed.

Section EvaluatorFacts.

Variable TOP_N : Z.
Variable s : Similarity.
Variable expecteds : option (list (list Z * list Qc)).

Lemma pure_step_boxed_inr (c c' : Qc) (d d' : list Qc) (item : nat * (list Z * Vec)) :
  pure_step TOP_N s expecteds (c, d) (boxed item) = inr (c', d') ↔
  ∃ eids esims sims dd,
    expected_of s expecteds item.1 item.2.2 = inr (eids, esims)
    ∧ recomputed_sims TOP_N s item.2.2 item.2.1 = inr sims
    ∧ array_add (Qcopp <$> sims) esims = inr dd
    ∧ c' = (c + Qc_of_Z (Z.of_nat (overlap eids item.2.1)))%Qc
    ∧ d' = d ++ dd.
Proof.
  destruct item as [i [p q]]. unfold pure_step, boxed. cbn [fst snd].
  rewrite iter_ids_value. unfold mbind, exn_bind, mret, exn_ret.
  destruct (expected_of s expecteds i q) as [e|[eids esims]].
  { split; [done|]. by intros (?&?&?&?&?&_). }
  destruct (recomputed_sims TOP_N s q p) as [e|sims].
  { split; [done|]. by intros (?&?&?&?&_&?&_). }
  destruct (array_add (Qcopp <$> sims) esims) as [e|dd] eqn:Hadd.
  { split; [done|]. intros (?&?&?&?&?&?&?&_). simplify_eq. congruence. }
  split.
  - intros [= <- <-]. by exists eids, esims, sims, dd.
  - intros (?&?&?&?&?&?&?&->&->). simplify_eq. congruence.
Qed.

Lemma pure_loop_cons_inr (locals result : Qc * list Qc)
    (item : nat * (value * Vec)) (rest : list (nat * (value * Vec))) :
  pure_loop TOP_N s expecteds locals (item :: rest) = inr result ↔
  ∃ locals', pure_step TOP_N s expecteds locals item = inr locals'
             ∧ pure_loop TOP_N s expecteds locals' rest = inr result.
Proof.
  simpl. unfold mbind, exn_bind.
  destruct (pure_step TOP_N s expecteds locals item) as [e|locals'].
  - split; [done|]. by intros (?&?&_).
  - split; [by exists locals'|]. by intros (?&[= <-]&?).
Qed.

Lemma hits_cons (item : nat * (list Z * Vec)) (items : list (nat * (list Z * Vec))) :
  hits s expecteds (item :: items)
  = (overlap (expected_ids s expecteds item.1 item.2.2) item.2.1
     + hits s expecteds items)%nat.
Proof. reflexivity. Qed.

(** [correct] counts the hits. *)
Lemma pure_loop_correct (items : list (nat * (list Z * Vec)))
    (c0 c : Qc) (d0 d : list Qc) :
  pure_loop TOP_N s expecteds (c0, d0) (boxed <$> items) = inr (c, d) →
  c = (c0 + Qc_of_Z (Z.of_nat (hits s expecteds items)))%Qc.
Proof.
  revert c0 d0. induction items as [|item items IH]; intros c0 d0.
  - intros [= <- <-]. change (hits s expecteds []) with 0%nat.
    change (Z.of_nat 0) with 0. by rewrite Z2Qc_inj_0, Qcplus_0_r.
  - rewrite fmap_cons.
    intros ([c1 d1]&(eids&esims&sims&dd&Hexp&_&_&->&->)%pure_step_boxed_inr&Hrest)%pure_loop_cons_inr.
    rewrite (IH _ _ Hrest), hits_cons.
    unfold expected_ids. rewrite Hexp.
    by rewrite Nat2Z.inj_add, Z2Qc_inj_add, Qcplus_assoc.
Qed.

(** The loop runs through when every turn does, and then [diffs] collects
    the differences of the turns in order. *)
Lemma pure_loop_runs (D : nat * (list Z * Vec) → list Qc)
    (items : list (nat * (list Z * Vec))) (c0 : Qc) (d0 : list Qc) :
  Forall (λ item, ∃ eids esims sims,
            expected_of s expecteds item.1 item.2.2 = inr (eids, esims)
            ∧ recomputed_sims TOP_N s item.2.2 item.2.1 = inr sims
            ∧ array_add (Qcopp <$> sims) esims = inr (D item)) items →
  pure_loop TOP_N s expecteds (c0, d0) (boxed <$> items)
  = inr ((c0 + Qc_of_Z (Z.of_nat (hits s expecteds items)))%Qc,
         d0 ++ concat (D <$> items)).
Proof.
  intros Hitems. revert c0 d0.
  induction Hitems as [|item items (eids&esims&sims&Hexp&Hsims&Hadd) _ IH];
    intros c0 d0.
  - change (hits s expecteds []) with 0%nat. change (Z.of_nat 0) with 0.
    simpl. by rewrite Z2Qc_inj_0, Qcplus_0_r, app_nil_r.
  - rewrite !fmap_cons. apply pure_loop_cons_inr.
    eexists. split.
    + apply pure_step_boxed_inr. by exists eids, esims, sims, (D item).
    + rewrite IH, hits_cons. unfold expected_ids. rewrite Hexp. simpl.
      by rewrite Nat2Z.inj_add, Z2Qc_inj_add, Qcplus_assoc, <-app_assoc.
Qed.

End EvaluatorFacts.

(** ** Overlap *)

Lemma size_list_to_set_le (l : list Z) : (size (list_to_set l : gset Z) ≤ length l)%nat.
Proof.
  induction l as [|x l IH].
  - rewrite list_to_set_nil, size_empty. done.
  - rewrite list_to_set_cons, size_union_alt, size_singleton. simpl.
    assert (size (list_to_set l ∖ {[x]} : gset Z) ≤ size (list_to_set l : gset Z))%nat
      by (apply subseteq_size; set_solver).
    lia.
Qed.

Lemma overlap_le (expected predicted : list Z) :
  (overlap expected predicted ≤ length expected)%nat.
Proof.
  unfold overlap. etrans; [|apply size_list_to_set_le].
  apply subseteq_size. set_solver.
Qed.

(** Only which ids are predicted counts, not where they stand. *)
Lemma overlap_perm (expected predicted predicted' : list Z) :
  predicted ≡ₚ predicted' → overlap expected predicted = overlap expected predicted'.
Proof.
  intros Hperm. unfold overlap. do 2 f_equal.
  by apply list_to_set_perm_L.
Qed.

Lemma overlap_self (ids : list Z) : NoDup ids → overlap ids ids = length ids.
Proof.
  intros Hids. unfold overlap.
  replace (list_to_set ids ∩ list_to_set ids : gset Z) with (list_to_set ids : gset Z)
    by set_solver.
  by apply size_list_to_set.
Qed.

Lemma overlap_nil (expected : list Z) : overlap expected [] = 0%nat.
Proof.
  unfold overlap.
  replace (list_to_set expected ∩ list_to_set [] : gset Z) with (∅ : gset Z)
    by set_solver.
  apply size_empty.
Qed.

(** ** The order of the predicted ids *)

Lemma length_extend_zeros (n : Z) (xs : list Qc) :
  length (extend_zeros n xs) = (length xs + Z.to_nat (n - Z.of_nat (length xs)))%nat.
Proof. unfold extend_zeros. by rewrite length_app, length_replicate. Qed.

Lemma recomputed_sims_perm (TOP_N : Z) (s : Similarity) (query : Vec)
    (predicted predicted' : list Z) (sims : list Qc) :
  predicted ≡ₚ predicted' →
  recomputed_sims TOP_N s query predicted = inr sims →
  ∃ sims', recomputed_sims TOP_N s query predicted' = inr sims'
           ∧ length sims' = length sims.
Proof.
  intros Hperm. unfold recomputed_sims.
  destruct (mapM _ predicted) as [e|k] eqn:Hk; [done|].
  intros [= <-].
  destruct (mapM_inr_perm _ _ _ _ Hperm Hk) as (k'&->&Hlen).
  eexists. split; [done|]. rewrite !length_extend_zeros. by rewrite Hlen.
Qed.

Lemma pure_loop_perm (TOP_N : Z) (s : Similarity)
    (expecteds : option (list (list Z * list Qc)))
    (items items' : list (nat * (list Z * Vec))) (c0 c : Qc) (d0 d0' d : list Qc) :
  Forall2 (λ item item', item.1 = item'.1 ∧ item.2.2 = item'.2.2
                         ∧ item.2.1 ≡ₚ item'.2.1) items items' →
  length d0' = length d0 →
  pure_loop TOP_N s expecteds (c0, d0) (boxed <$> items) = inr (c, d) →
  ∃ d', pure_loop TOP_N s expecteds (c0, d0') (boxed <$> items') = inr (c, d')
        ∧ length d' = length d.
Proof.
  intros Hitems. revert c0 d0 d0'.
  induction Hitems as [|item item' items items' (Hno&Hq&Hp) _ IH]; intros c0 d0 d0' Hlen.
  - intros [= <- <-]. by exists d0'.
  - rewrite !fmap_cons.
    intros ([c1 d1]&(eids&esims&sims&dd&Hexp&Hsims&Hadd&->&->)%pure_step_boxed_inr&Hrest)%pure_loop_cons_inr.
    destruct (recomputed_sims_perm _ _ _ _ _ _ Hp Hsims) as (sims'&Hsims'&Hlen').
    destruct (array_add_length _ (Qcopp <$> sims') _ _ Hadd) as (dd'&Hadd'&Hdd').
    { by rewrite !length_fmap. }
    assert (length (d0' ++ dd') = length (d0 ++ dd)) as Hlen1
      by (rewrite !length_app; lia).
    destruct (IH _ _ _ Hlen1 Hrest) as (d'&Hd'&Hlend).
    exists d'. split; [|done].
    apply pure_loop_cons_inr. eexists. split; [|exact Hd'].
    apply pure_step_boxed_inr. exists eids, esims, sims', dd'.
    rewrite <-Hno, <-Hq. repeat split; try done.
    by rewrite (overlap_perm _ _ _ Hp).
Qed.

Lemma enumerate_zip_perm (predicted_ids predicted_ids' : list (list Z))
    (queries : list Vec) :
  Forall2 (≡ₚ) predicted_ids predicted_ids' →
  Forall2 (λ item item', item.1 = item'.1 ∧ item.2.2 = item'.2.2
                         ∧ item.2.1 ≡ₚ item'.2.1)
          (enumerate (zip predicted_ids queries))
          (enumerate (zip predicted_ids' queries)).
Proof.
  intros Hperm. unfold enumerate. generalize 0%nat as start. revert queries.
  induction Hperm as [|p p' ps ps' Hp _ IH]; intros [|q qs] start; simpl;
    try by constructor.
Qed.

(** If the evaluator returns for some predictions, it returns for the same
    predictions in any other order, with the same precision. *)
Lemma pure_accuracy_perm (TOP_N : Z) (s : Similarity)
    (expecteds : option (list (list Z * list Qc)))
    (predicted_ids predicted_ids' : list (list Z)) (queries : list Vec)
    (precision avg_diff : Qc) :
  Forall2 (≡ₚ) predicted_ids predicted_ids' →
  pure_accuracy TOP_N s expecteds (ids_value <$> predicted_ids) queries
  = inr (precision, avg_diff) →
  ∃ avg_diff',
    pure_accuracy TOP_N s expecteds (ids_value <$> predicted_ids') queries
    = inr (precision, avg_diff').
Proof.
  intros Hperm. unfold pure_accuracy. rewrite !enumerate_zip_boxed.
  unfold mbind at 1 4, exn_bind.
  destruct (pure_loop _ _ _ _ (boxed <$> enumerate (zip predicted_ids queries)))
    as [e|[c d]] eqn:Hloop; [done|].
  destruct (pure_loop_perm _ _ _ _ _ _ _ _ [] _
              (enumerate_zip_perm _ _ queries Hperm) eq_refl Hloop) as (d'&->&Hlen).
  unfold mbind, exn_bind, mret, exn_ret.
  destruct (truediv c _) as [e|pr]; [done|].
  unfold truediv. rewrite Hlen.
  destruct (decide (Z.of_nat (length d) = 0)); [done|].
  intros [= <- <-]. by eexists.
Qed.

(** ** Ratios *)

Lemma Qc_of_Z_nonzero (d : Z) : d ≠ 0 → Qc_of_Z d ≠ 0%Qc.
Proof. intros Hd. rewrite <-Z2Qc_inj_0. by intros ?%Z2Qc_inj. Qed.

Lemma ratio_mult (x y : Qc) : y ≠ 0%Qc → (x / y * y)%Qc = x.
Proof. intros Hy. rewrite Qcmult_comm. by apply Qcmult_div_r. Qed.

Lemma ratio_bounds (n d : Z) :
  0 ≤ n ≤ d → 0 < d → (0 ≤ Qc_of_Z n / Qc_of_Z d ≤ 1)%Qc.
Proof.
  intros [Hn Hnd] Hd.
  assert (0 < Qc_of_Z d)%Qc as Hd'
    by (rewrite <-Z2Qc_inj_0; by apply (proj1 (Z2Qc_inj_lt 0 d))).
  assert (Qc_of_Z d ≠ 0%Qc) as Hd0 by (apply Qc_of_Z_nonzero; lia).
  split.
  - apply (Qcmult_lt_0_le_reg_r _ _ (Qc_of_Z d)); [done|].
    rewrite Qcmult_0_l, ratio_mult by done.
    rewrite <-Z2Qc_inj_0. by apply (proj1 (Z2Qc_inj_le 0 n)).
  - apply (Qcmult_lt_0_le_reg_r _ _ (Qc_of_Z d)); [done|].
    rewrite Qcmult_1_l, ratio_mult by done.
    by apply (proj1 (Z2Qc_inj_le n d)).
Qed.

Lemma ratio_one (x : Qc) : x ≠ 0%Qc → (x / x)%Qc = 1%Qc.
Proof. intros Hx. unfold Qcdiv. by apply Qcmult_inv_r. Qed.

Lemma ratio_zero (x : Qc) : (0 / x)%Qc = 0%Qc.
Proof. unfold Qcdiv. apply Qcmult_0_l. Qed.

Lemma truediv_inr (x y : Qc) (d : Z) :
  truediv x d = inr y ↔ d ≠ 0 ∧ y = (x / Qc_of_Z d)%Qc.
Proof.
  unfold truediv. destruct (decide (d = 0)) as [->|Hd].
  - split; [done|]. by intros [? _].
  - split; [by intros [= <-]|]. by intros [_ ->].
Qed.

(** ** Precision *)

Lemma length_enumerate_zip {A B} (xs : list A) (ys : list B) :
  length (enumerate (zip xs ys)) = (length xs `min` length ys)%nat.
Proof. unfold enumerate. by rewrite length_enumerate_from, length_zip_with. Qed.

Lemma hits_le (K : Z) (s : Similarity) (expecteds : option (list (list Z * list Qc)))
    (items : list (nat * (list Z * Vec))) :
  Forall (λ item, Z.of_nat (length (expected_ids s expecteds item.1 item.2.2)) ≤ K)
         items →
  Z.of_nat (hits s expecteds items) ≤ K * Z.of_nat (length items).
Proof.
  induction 1 as [|item items Hitem _ IH].
  - change (hits s expecteds []) with 0%nat. simpl. lia.
  - rewrite hits_cons.
    pose proof (overlap_le (expected_ids s expecteds item.1 item.2.2) item.2.1).
    simpl length. lia.
Qed.

Lemma hits_exact (K : Z) (s : Similarity) (expecteds : option (list (list Z * list Qc)))
    (items : list (nat * (list Z * Vec))) :
  Forall (λ item, item.2.1 = expected_ids s expecteds item.1 item.2.2
                  ∧ NoDup item.2.1 ∧ Z.of_nat (length item.2.1) = K) items →
  Z.of_nat (hits s expecteds items) = K * Z.of_nat (length items).
Proof.
  induction 1 as [|item items (Hexp&Hnodup&Hlen) _ IH].
  - change (hits s expecteds []) with 0%nat. simpl. lia.
  - rewrite hits_cons, <-Hexp, overlap_self by done.
    simpl length. lia.
Qed.

(** What a returned result says about the run of the loop. *)
Lemma pure_accuracy_inr (TOP_N : Z) (s : Similarity)
    (expecteds : option (list (list Z * list Qc)))
    (predicted_ids : list value) (queries : list Vec) (precision avg_diff : Qc) :
  pure_accuracy TOP_N s expecteds predicted_ids queries = inr (precision, avg_diff) ↔
  ∃ correct diffs,
    pure_loop TOP_N s expecteds (0%Qc, []) (enumerate (zip predicted_ids queries))
    = inr (correct, diffs)
    ∧ TOP_N * Z.of_nat (length queries) ≠ 0
    ∧ precision = (correct / Qc_of_Z (TOP_N * Z.of_nat (length queries)))%Qc
    ∧ diffs ≠ []
    ∧ avg_diff = (1 * sum diffs / Qc_of_Z (Z.of_nat (length diffs)))%Qc.
Proof.
  unfold pure_accuracy.
  destruct (pure_loop _ _ _ _ _) as [e|[c d]].
  { split; [done|]. by intros (?&?&?&_). }
  unfold mbind, exn_bind, mret, exn_ret.
  destruct (truediv c _) as [e|pr] eqn:Hpr.
  { split; [done|]. intros (?&?&[= <- <-]&Hnz&_). unfold truediv in Hpr.
    by rewrite decide_False in Hpr. }
  apply truediv_inr in Hpr as [Hnz ->].
  destruct (truediv (1 * sum d) _) as [e|av] eqn:Hav.
  { split; [done|]. intros (?&?&[= <- <-]&_&_&Hd&_). unfold truediv in Hav.
    rewrite decide_False in Hav; [done|]. destruct d; [done|]. simpl. lia. }
  apply truediv_inr in Hav as [Hd ->].
  split.
  - intros [= <- <-]. exists c, d. repeat split; try done. by intros ->.
  - intros (?&?&[= <- <-]&_&->&_&->). done.
Qed.


(** C1 (as amended): whenever [get_accuracy] returns a result, its precision
    is the number of hits, summed over the (predicted, query) pairs the loop
    runs through, divided by [TOP_N * len(queries)]; the same predictions in
    any other order give a result with the same precision; the precision lies
    in [0, 1] when no ground-truth list has more than [TOP_N] ids; and it is 1
    when there is one prediction per query, every prediction is the list of
    expected ids, and these are [TOP_N] distinct ids. *)
Theorem get_accuracy_precision (TOP_N : Z) (predicted_ids : list (list Z))
    (queries : list Vec) (gensim_index : ref)
    (expecteds : option (list (list Z * list Qc))) (w : World)
    (precision avg_diff : Qc) :
  (get_accuracy TOP_N (ids_value <$> predicted_ids) queries gensim_index expecteds w).1
  = inr (precision, avg_diff) →
  let s := with_num_best (Some TOP_N) (heap w gensim_index) in
  let items := enumerate (zip predicted_ids queries) in
  precision = (Qc_of_Z (Z.of_nat (hits s expecteds items))
               / Qc_of_Z (TOP_N * Z.of_nat (length queries)))%Qc
  ∧ (∀ predicted_ids',
       Forall2 (≡ₚ) predicted_ids predicted_ids' →
       ∃ avg_diff',
         (get_accuracy TOP_N (ids_value <$> predicted_ids') queries
                       gensim_index expecteds w).1
         = inr (precision, avg_diff'))
  ∧ (Forall (λ item, Z.of_nat (length (expected_ids s expecteds item.1 item.2.2))
                     ≤ TOP_N) items →
     (0 ≤ precision ≤ 1)%Qc)
  ∧ (length predicted_ids = length queries →
     Forall (λ item, item.2.1 = expected_ids s expecteds item.1 item.2.2
                     ∧ NoDup item.2.1 ∧ Z.of_nat (length item.2.1) = TOP_N) items →
     precision = 1%Qc).
Proof.
  rewrite get_accuracy_run. cbn [fst]. intros Hacc.
  set (s := with_num_best (Some TOP_N) (heap w gensim_index)) in *.
  set (items := enumerate (zip predicted_ids queries)) in *.
  pose proof Hacc as (c&d&Hloop&Hnz&Hprecision&Hd&_)%pure_accuracy_inr.
  rewrite enumerate_zip_boxed in Hloop. fold items s in Hloop.
  pose proof (pure_loop_correct _ _ _ _ _ _ _ _ Hloop) as Hc.
  rewrite Qcplus_0_l in Hc. subst c.
  assert (items ≠ []) as Hitems.
  { intros Hnil. rewrite Hnil in Hloop. simpl in Hloop. by simplify_eq. }
  assert (length items ≤ length queries)%nat as Hlen
    by (unfold items; rewrite length_enumerate_zip; lia).
  split; [done|]. split; [|split].
  - intros predicted_ids' Hperm. rewrite get_accuracy_run. cbn [fst].
    by apply (pure_accuracy_perm _ _ _ _ _ _ _ _ Hperm Hacc).
  - intros Hexp. rewrite Hprecision.
    pose proof (hits_le _ _ _ _ Hexp) as Hhits.
    assert (0 ≤ TOP_N) as HK.
    { destruct items as [|item ?]; [done|]. apply Forall_cons in Hexp as [? _]. lia. }
    apply ratio_bounds; nia.
  - intros Hsame Hexact. rewrite Hprecision.
    rewrite (hits_exact _ _ _ _ Hexact).
    unfold items. rewrite length_enumerate_zip, Hsame, Nat.min_id.
    apply ratio_one. by apply Qc_of_Z_nonzero.
Qed.

Lemma get_accuracy_precision_witness :
  let w := world_of (exact_index two_docs) in
  let s := with_num_best (Some 2) (exact_index two_docs) in
  let hit := hits s None (enumerate (zip [[1; 0]] unit_query)) in
  (get_accuracy 2 (ids_value <$> [[1; 0]]) unit_query 0%nat None w).1
  = inr (1%Qc, 0%Qc)
  ∧ 1%Qc = (Qc_of_Z (Z.of_nat hit) / Qc_of_Z (2 * Z.of_nat (length unit_query)))%Qc.
Proof.
  assert ((get_accuracy 2 (ids_value <$> [[1; 0]]) unit_query 0%nat None
                        (world_of (exact_index two_docs))).1
          = inr (1%Qc, 0%Qc)) as Hrun by by_run.
  split; [exact Hrun|].
  exact (proj1 (get_accuracy_precision 2 [[1; 0]] unit_query 0%nat None
                  (world_of (exact_index two_docs)) 1%Qc 0%Qc Hrun)).
Defined.

(** C1, as stated, fails where the ground truth of a query has fewer than
    [TOP_N] ids: on an index of one document with [TOP_N = 2], the prediction
    [[0]] is exactly the list of expected ids, and the precision is 1/2. *)
Lemma precision_below_one_on_exact_match :
  let s := with_num_best (Some 2) (exact_index one_doc) in
  expected_ids s None 0 [1%Qc] = [0]
  ∧ (get_accuracy 2 [ids_value [0]] unit_query 0%nat None
                  (world_of (exact_index one_doc))).1
    = inr (half, half)
  ∧ half ≠ 1%Qc.
Proof. split; [by_run|]. split; [by_run|done]. Qed.

(** ** Similarity deviation *)

Lemma mapM_inr_Forall2 {A B} (f : A → exn + B) (l : list A) (k : list B) :
  Forall2 (λ x y, f x = inr y) l k → mapM f l = inr k.
Proof.
  induction 1 as [|x y l k Hx _ IH]; [done|].
  apply mapM_cons_inr. by exists y, k.
Qed.

Lemma extend_zeros_full (n : Z) (xs : list Qc) :
  Z.of_nat (length xs) = n → extend_zeros n xs = xs.
Proof.
  intros <-. unfold extend_zeros. rewrite Z.sub_diag. simpl. by rewrite app_nil_r.
Qed.

Lemma extend_zeros_nil (n : Z) : extend_zeros n [] = replicate (Z.to_nat n) 0%Qc.
Proof. unfold extend_zeros. simpl. by rewrite Z.sub_0_r. Qed.

(** A similarity subtracted from itself, slot by slot. *)
Lemma zip_with_opp (xs : list Qc) :
  zip_with Qcplus (Qcopp <$> xs) xs = replicate (length xs) 0%Qc.
Proof.
  induction xs as [|x xs IH]; [done|].
  rewrite fmap_cons. simpl. rewrite IH. f_equal.
  rewrite Qcplus_comm. apply Qcplus_opp_r.
Qed.

Lemma concat_zeros {A} (n : nat) (items : list A) :
  Forall (λ x, x = 0%Qc) (concat ((λ _, replicate n 0%Qc) <$> items)).
Proof.
  induction items as [|item items IH]; [done|].
  rewrite fmap_cons. simpl. apply Forall_app. split; [|done].
  by apply Forall_replicate.
Qed.

Lemma length_concat_const {A} (n : nat) (D : A → list Qc) (items : list A) :
  Forall (λ item, length (D item) = n) items →
  length (concat (D <$> items)) = (n * length items)%nat.
Proof.
  induction 1 as [|item items Hitem _ IH]; [simpl; lia|].
  rewrite fmap_cons. simpl. rewrite length_app, IH, Hitem. lia.
Qed.

Lemma enumerate_from_zip_Forall2 {A B} (R : A → nat * B → Prop)
    (start : nat) (xs : list A) (ys : list B) :
  Forall2 R xs (enumerate_from start ys) →
  Forall (λ item, R item.2.1 (item.1, item.2.2)) (enumerate_from start (zip xs ys))
  ∧ length xs = length ys.
Proof.
  revert start ys. induction xs as [|x xs IH]; intros start [|y ys] Hall;
    simpl in *; try by inversion Hall.
  apply Forall2_cons in Hall as [Hx Hall].
  destruct (IH _ _ Hall) as [IH1 IH2].
  split; [by constructor|by rewrite IH2].
Qed.

Lemma enumerate_from_zip_replicate {A B} (x : A) (start : nat) (ys : list B) :
  enumerate_from start (zip (replicate (length ys) x) ys)
  = (λ item, (item.1, (x, item.2))) <$> enumerate_from start ys.
Proof.
  revert start. induction ys as [|y ys IH]; intros start; [done|].
  simpl. by rewrite IH.
Qed.

Lemma hits_no_predictions (s : Similarity)
    (expecteds : option (list (list Z * list Qc))) (items : list (nat * Vec)) :
  hits s expecteds ((λ item, (item.1, ([], item.2))) <$> items) = 0%nat.
Proof.
  induction items as [|item items IH]; [done|].
  rewrite fmap_cons, hits_cons, IH. simpl. by rewrite overlap_nil.
Qed.

(** C5 (as amended): if there is at least one query, [TOP_N] is positive,
    and for every query the predicted ids are the expected ids in the same
    order, [TOP_N] of them, each expected similarity being the dot product of
    the query with the vector the index keeps for that id, then [get_accuracy]
    returns an average similarity deviation of 0. *)
Theorem exact_match_deviation (TOP_N : Z) (predicted_ids : list (list Z))
    (queries : list Vec) (gensim_index : ref)
    (expecteds : option (list (list Z * list Qc))) (w : World) :
  0 < TOP_N →
  queries ≠ [] →
  let s := with_num_best (Some TOP_N) (heap w gensim_index) in
  Forall2 (λ predicted item,
             ∃ sims,
               expected_of s expecteds item.1 item.2 = inr (predicted, sims)
               ∧ Z.of_nat (length predicted) = TOP_N
               ∧ Forall2 (λ id1 sim, (v ← vector_by_id s id1; dot v item.2) = inr sim)
                         predicted sims)
          predicted_ids (enumerate queries) →
  ∃ precision,
    (get_accuracy TOP_N (ids_value <$> predicted_ids) queries gensim_index expecteds w).1
    = inr (precision, 0%Qc).
Proof.
  intros HK Hqueries s Hmatch.
  apply enumerate_from_zip_Forall2 in Hmatch as [Hitems Hlen].
  rewrite get_accuracy_run. cbn [fst]. fold s.
  set (items := enumerate (zip predicted_ids queries)) in *.
  set (zeros := λ _ : nat * (list Z * Vec), replicate (Z.to_nat TOP_N) 0%Qc).
  assert (pure_loop TOP_N s expecteds (0%Qc, []) (boxed <$> items)
          = inr ((0 + Qc_of_Z (Z.of_nat (hits s expecteds items)))%Qc,
                 [] ++ concat (zeros <$> items))) as Hloop.
  { apply pure_loop_runs. eapply Forall_impl; [exact Hitems|].
    intros [i [p q]]. cbn [fst snd]. intros (sims&Hexp&Hp&Hsims).
    assert (length sims = length p) as Hsp by (symmetry; by eapply Forall2_length).
    exists p, sims, sims. split; [done|]. split.
    - unfold recomputed_sims. rewrite (mapM_inr_Forall2 _ _ _ Hsims). simpl.
      unfold mret, exn_ret. f_equal. apply extend_zeros_full. lia.
    - rewrite array_add_same_length by by rewrite length_fmap.
      rewrite zip_with_opp. unfold zeros. f_equal. f_equal. lia. }
  assert (length items = length queries) as Hn
    by (unfold items; rewrite length_enumerate_zip; lia).
  assert (length (concat (zeros <$> items))
          = (Z.to_nat TOP_N * length queries)%nat) as Hd.
  { rewrite <-Hn. apply length_concat_const, Forall_forall. intros item _.
    unfold zeros. by rewrite length_replicate. }
  eexists. apply pure_accuracy_inr.
  rewrite enumerate_zip_boxed. fold items.
  eexists _, _. split; [exact Hloop|].
  assert (length queries ≠ 0%nat) by by destruct queries.
  change ([] ++ concat (zeros <$> items)) with (concat (zeros <$> items)).
  split; [nia|]. split; [done|]. split.
  - intros Hnil. rewrite Hnil in Hd. simpl in Hd. nia.
  - assert (sum (concat (zeros <$> items)) = 0%Qc) as ->
      by (apply sum_zeros; exact (concat_zeros (Z.to_nat TOP_N) items)).
    by rewrite Qcmult_0_r, ratio_zero.
Qed.

Lemma exact_match_deviation_witness :
  ∃ precision,
    (get_accuracy 2 (ids_value <$> [[0; 1]]) unit_query 0%nat None
                  (world_of (exact_index two_docs))).1
    = inr (precision, 0%Qc).
Proof.
  apply (exact_match_deviation 2 [[0; 1]] unit_query 0%nat None
           (world_of (exact_index two_docs))); [lia|done|].
  repeat constructor. exists [1%Qc; half].
  split; [by_run|]. split; [done|].
  repeat constructor; by_run.
Defined.

(** C5, as stated, fails where the ground truth of a query has fewer than
    [TOP_N] entries: on an index of one document with [TOP_N = 2], the
    prediction [[0]] matches the expected ids exactly and its recomputed
    similarity is the expected one, yet the padded second slot is set against
    the expected similarity again and the deviation is 1/2. *)
Lemma deviation_on_short_exact_match :
  let s := with_num_best (Some 2) (exact_index one_doc) in
  expected_of s None 0 [1%Qc] = inr ([0], [1%Qc])
  ∧ (v ← vector_by_id s 0; dot v [1%Qc]) = inr 1%Qc
  ∧ (get_accuracy 2 [ids_value [0]] unit_query 0%nat None
                  (world_of (exact_index one_doc))).1
    = inr (half, half)
  ∧ half ≠ 0%Qc.
Proof. split; [by_run|]. split; [by_run|]. split; [by_run|done]. Qed.

(** The expected similarities are taken as the index reports them: where
    they are not the dot products that line 127 recomputes, an exact match
    of [TOP_N] ids has a deviation too. *)
Example deviation_on_other_similarities :
  (get_accuracy 1 [ids_value [0]] unit_query 0%nat (Some [([0], [half])])
                (world_of (exact_index one_doc))).1
  = inr (1%Qc, (- half)%Qc).
Proof. by_run. Qed.

(** ** Predictions that fall short *)

(** What a turn of the loop on a list of ids comes to: lines 127-130 on the
    dot products of the predicted ids. *)
Lemma accuracy_step_inr (TOP_N : Z) (gensim_index : ref)
    (expecteds : option (list (list Z * list Qc))) (correct correct' : Qc)
    (diffs diffs' : list Qc) (query_no : nat) (predicted : list Z) (query : Vec)
    (w : World) :
  (accuracy_step TOP_N gensim_index expecteds (correct, diffs)
                 (query_no, (ids_value predicted, query)) w).1
  = inr (correct', diffs') →
  ∃ ids esims dots dd,
    expected_of (heap w gensim_index) expecteds query_no query = inr (ids, esims)
    ∧ mapM (λ id1, v ← vector_by_id (heap w gensim_index) id1; dot v query) predicted
      = inr dots
    ∧ array_add (Qcopp <$> extend_zeros TOP_N dots) esims = inr dd
    ∧ diffs' = diffs ++ dd.
Proof.
  rewrite accuracy_step_run. cbn [fst].
  change (query_no, (ids_value predicted, query))
    with (boxed (query_no, (predicted, query))).
  intros (ids&esims&sims&dd&Hexp&Hsims&Hadd&_&->)%pure_step_boxed_inr.
  cbn [fst snd] in *. unfold recomputed_sims in Hsims.
  destruct (mapM _ predicted) as [e|dots]; [done|].
  injection Hsims as <-. by exists ids, esims, dots, dd.
Qed.

(** C4 (as amended): in a turn of the loop whose prediction has
    [m < TOP_N] ids, the [m] recomputed dot products are followed by
    [TOP_N - m] zeros, and it is this list of [TOP_N] similarities that is
    subtracted from the expected similarities. When there is at least one
    query, [TOP_N] is positive and the ground truth of every query has [TOP_N]
    similarities, a backend that predicts the empty list for every query gets
    precision 0 and, as average deviation, the average of all expected
    similarities. *)
Theorem short_predictions_padded (TOP_N : Z) (queries : list Vec)
    (gensim_index : ref) (expecteds : option (list (list Z * list Qc)))
    (w : World) :
  0 < TOP_N →
  queries ≠ [] →
  let s := with_num_best (Some TOP_N) (heap w gensim_index) in
  Forall (λ item, ∃ ids sims,
            expected_of s expecteds item.1 item.2 = inr (ids, sims)
            ∧ Z.of_nat (length sims) = TOP_N) (enumerate queries) →
  let all := concat ((λ item, expected_sims s expecteds item.1 item.2)
                     <$> enumerate queries) in
  (∀ correct diffs query_no predicted query w0 correct' diffs',
     (accuracy_step TOP_N gensim_index expecteds (correct, diffs)
                    (query_no, (ids_value predicted, query)) w0).1
     = inr (correct', diffs') →
     Z.of_nat (length predicted) < TOP_N →
     ∃ ids esims dots dd,
       expected_of (heap w0 gensim_index) expecteds query_no query = inr (ids, esims)
       ∧ mapM (λ id1, v ← vector_by_id (heap w0 gensim_index) id1; dot v query)
              predicted
         = inr dots
       ∧ length dots = length predicted
       ∧ array_add
           (Qcopp <$> (dots ++ replicate
                                 (Z.to_nat (TOP_N - Z.of_nat (length predicted)))
                                 0%Qc))
           esims
         = inr dd
       ∧ diffs' = diffs ++ dd)
  ∧ (get_accuracy TOP_N (ids_value <$> replicate (length queries) []) queries
                  gensim_index expecteds w).1
    = inr (0%Qc, (sum all / Qc_of_Z (Z.of_nat (length all)))%Qc).
Proof.
  intros HK Hqueries s Htruth all. split.
  { intros correct diffs query_no predicted query w0 correct' diffs' Hstep Hshort.
    destruct (accuracy_step_inr _ _ _ _ _ _ _ _ _ _ _ Hstep)
      as (ids&esims&dots&dd&Hexp&Hdots&Hadd&->).
    pose proof (mapM_inr_length _ _ _ Hdots) as Hlen.
    exists ids, esims, dots, dd. repeat split; try done.
    unfold extend_zeros in Hadd. by rewrite Hlen in Hadd. }
  rewrite get_accuracy_run. cbn [fst]. fold s.
  apply pure_accuracy_inr. rewrite enumerate_zip_boxed.
  unfold enumerate. rewrite enumerate_from_zip_replicate. fold (enumerate queries).
  set (items := (λ item : nat * Vec, (item.1, ([] : list Z, item.2)))
                <$> enumerate queries).
  set (D := λ item : nat * (list Z * Vec), expected_sims s expecteds item.1 item.2.2).
  assert (concat (D <$> items) = all) as Hall.
  { unfold items, all. rewrite <-list_fmap_compose. done. }
  assert (Forall (λ item, Z.of_nat (length (D item)) = TOP_N) items) as HD.
  { unfold items. apply Forall_fmap. eapply Forall_impl; [exact Htruth|].
    intros [i q]. cbn [fst snd]. intros (ids&sims&Hexp&Hlen).
    unfold D, expected_sims, compose. cbn [fst snd]. by rewrite Hexp. }
  assert (pure_loop TOP_N s expecteds (0%Qc, []) (boxed <$> items)
          = inr ((0 + Qc_of_Z (Z.of_nat (hits s expecteds items)))%Qc,
                 [] ++ concat (D <$> items))) as Hloop.
  { apply pure_loop_runs. unfold items. apply Forall_fmap.
    eapply Forall_impl; [exact Htruth|].
    intros [i q]. cbn [fst snd]. intros (ids&sims&Hexp&Hlen).
    unfold compose. cbn [fst snd].
    exists ids, sims, (replicate (Z.to_nat TOP_N) 0%Qc).
    split; [done|]. split.
    - change (recomputed_sims TOP_N s q [])
        with (inr (extend_zeros TOP_N []) : exn + list Qc).
      by rewrite extend_zeros_nil.
    - rewrite array_add_same_length
        by (rewrite length_fmap, length_replicate; lia).
      rewrite zip_with_zeros by lia.
      unfold D, expected_sims. cbn [fst snd]. by rewrite Hexp. }
  unfold items in Hloop at 2. rewrite hits_no_predictions in Hloop.
  change (Z.of_nat 0) with 0 in Hloop. rewrite Z2Qc_inj_0, Qcplus_0_l in Hloop.
  rewrite Hall in Hloop. cbn [app] in Hloop.
  assert (length all = (Z.to_nat TOP_N * length queries)%nat) as Hlen.
  { rewrite <-Hall. rewrite (length_concat_const (Z.to_nat TOP_N)).
    - unfold items, enumerate. by rewrite length_fmap, length_enumerate_from.
    - eapply Forall_impl; [exact HD|]. intros item. cbn. lia. }
  assert (length queries ≠ 0%nat) by by destruct queries.
  eexists _, _. split; [exact Hloop|].
  split; [nia|]. split; [by rewrite ratio_zero|]. split.
  - intros Hnil. rewrite Hnil in Hlen. simpl in Hlen. nia.
  - by rewrite Qcmult_1_l.
Qed.

Lemma short_predictions_padded_witness :
  (get_accuracy 2 (ids_value <$> replicate (length unit_query) []) unit_query
                0%nat None (world_of (exact_index two_docs))).1
  = inr (0%Qc, Q2Qc (3 # 4)).
Proof.
  pose proof (short_predictions_padded 2 unit_query 0%nat None
                (world_of (exact_index two_docs))) as Hthm.
  cbv zeta in Hthm.
  destruct Hthm as [_ Hrun]; [lia|done| |].
  - repeat constructor. exists [0; 1], [1%Qc; half]. split; [by_run|done].
  - rewrite Hrun. by_run.
Defined.

(** C4, as stated, fails where the ground truth of a query has more than one
    and fewer than [TOP_N] entries: on an index of two documents with
    [TOP_N = 3], the empty prediction is padded to three zeros, which cannot
    be set against two expected similarities; [get_accuracy] raises
    [ValueError] and yields no precision. *)
Lemma empty_prediction_short_ground_truth :
  let s := with_num_best (Some 3) (exact_index two_docs) in
  expected_of s None 0 [1%Qc] = inr ([0; 1], [1%Qc; half])
  ∧ (similarities 3 0%nat [1%Qc] [] (world_of s)).1 = inr [0%Qc; 0%Qc; 0%Qc]
  ∧ (get_accuracy 3 [ids_value []] unit_query 0%nat None
                  (world_of (exact_index two_docs))).1
    = inl ValueError.
Proof. split; [by_run|]. split; by_run. Qed.

(** ** The prediction adapters *)

(** [lsh_predictions] read off the world: a function of the global
    [index_lsh], the queries and [TOP_N]. *)
Lemma lsh_predictions_run (TOP_N : Z) (index : LshIndex) (queries : list Vec)
    (w : World) :
  lsh_predictions TOP_N index queries w
  = (mapM (λ query,
             index_lsh ← match index_lsh w with
                         | Some i => inr i
                         | None => inl NameError
                         end;
             found ← Find index_lsh query;
             mret (ids_value (slice_to TOP_N found).*1)) queries,
     w).
Proof.
  unfold lsh_predictions.
  induction queries as [|q queries IH]; [done|].
  simpl. rewrite !bind_run. unfold global_index_lsh at 1. rewrite read_run.
  destruct (index_lsh w) as [g|]; [|done]. cbv beta iota.
  rewrite bind_run, lift_run. simpl.
  destruct (Find g q) as [e|found]; [done|]. cbv beta iota.
  rewrite ret_run, bind_run, IH. simpl.
  by destruct (mapM _ queries).
Qed.

(** C8: [lsh_predictions] does not depend on its [index] argument: for any
    two arguments, and any two worlds that hold the same module global
    [index_lsh], it returns the same for the same queries; it is the global
    it reads. *)
Theorem lsh_predictions_ignores_index (TOP_N : Z) (index index' : LshIndex)
    (queries : list Vec) (w w' : World) :
  index_lsh w = index_lsh w' →
  (lsh_predictions TOP_N index queries w).1
  = (lsh_predictions TOP_N index' queries w').1.
Proof. intros Hglobal. rewrite !lsh_predictions_run. cbn [fst]. by rewrite Hglobal. Qed.

Lemma lsh_predictions_ignores_index_witness :
  let w := (assign_index_lsh (lsh_finding [(3, half)])
              (world_of (exact_index one_doc))).2 in
  (lsh_predictions 1 (lsh_finding [(7, half)]) unit_query w).1
  = (lsh_predictions 1 (lsh_finding []) unit_query (tick w)).1.
Proof.
  exact (lsh_predictions_ignores_index 1 (lsh_finding [(7, half)]) (lsh_finding [])
           unit_query _ _ eq_refl).
Defined.

(** What it does depend on is the global. *)
Example lsh_predictions_reads_global :
  let w := world_of (exact_index one_doc) in
  (lsh_predictions 1 (lsh_finding [(7, half)]) unit_query w).1 = inl NameError
  ∧ (lsh_predictions 1 (lsh_finding [(7, half)]) unit_query
       (assign_index_lsh (lsh_finding [(3, half)]) w).2).1
    = inr [ids_value [3]].
Proof. split; by_run. Qed.

Lemma comprehension_ext {A B} (f g : A → M B) (xs : list A) (w : World) :
  (∀ x w', x ∈ xs → f x w' = g x w') → comprehension f xs w = comprehension g xs w.
Proof.
  revert w. induction xs as [|x xs IH]; intros w Hfg; [done|].
  simpl. rewrite !bind_run, Hfg by left.
  destruct (g x w) as [[e|y] w']; [done|].
  rewrite !bind_run, IH; [done|].
  intros x' w2 Hx'. apply Hfg. by right.
Qed.

(** A comprehension whose body returns without touching the world. *)
Lemma comprehension_pure {A B} (f : A → B) (xs : list A) (w : World) :
  comprehension (λ x, mret (f x)) xs w = (inr (f <$> xs), w).
Proof.
  induction xs as [|x xs IH]; [done|].
  simpl. rewrite bind_run, ret_run, bind_run, IH. done.
Qed.

Lemma gensim_predictions_run (index : ref) (queries : list Vec) (w : World) :
  ∃ evs, (gensim_predictions index queries w).2 = extend_trace evs w.
Proof.
  unfold gensim_predictions. revert w.
  induction queries as [|q queries IH]; intros w.
  - exists []. simpl. by rewrite extend_trace_nil.
  - simpl. rewrite !bind_run, getitem_run.
    destruct (getitem _ _ _) as [e|r]; [by eexists|].
    rewrite bind_run, lift_run.
    destruct (positions r) as [e|ids]; [by eexists|].
    rewrite ret_run, bind_run.
    destruct (IH (extend_trace [Queried index 1] w)) as [evs Hevs].
    destruct (comprehension _ queries _) as [[e|ys] w'] eqn:Hrest.
    + simpl in *. subst w'. rewrite extend_trace_app. by eexists.
    + rewrite ret_run. simpl in *. subst w'. rewrite extend_trace_app. by eexists.
Qed.

(** C7 (as amended): with [TOP_N = 1] the adapter takes [nn_index(...)[0]] as
    the prediction of a query, one subscript less than otherwise. A backend
    that answers each query with the pair of a flat one-element id array and
    a flat one-element score array so gets the one-element id list as its
    prediction, the same that a backend answering [[(id, score)]] gets from
    the adapter for lists of pairs, and [get_accuracy] returns the same for
    both. *)
Theorem flann_predictions_single (index : FlannIndex) (other : ref)
    (queries : list Vec) (ids : Vec → Z) (scores : Vec → Qc) (w : World) :
  (∀ query, query ∈ queries →
     nn_index index (One query) 1
     = inr (VSeq [VSeq [VInt (ids query)]; VSeq [VNum (scores query)]])) →
  (∀ query, query ∈ queries →
     getitem (heap w other) (num_best (heap w other)) query
     = inr (Best [(ids query, scores query)])) →
  let predicted := (λ query, ids_value [ids query]) <$> queries in
  (flann_predictions 1 index queries w).1 = inr predicted
  ∧ (gensim_predictions other queries w).1 = inr predicted
  ∧ ∀ gensim_index expecteds,
      ((flann_predictions 1 index queries
        ≫= λ p, get_accuracy 1 p queries gensim_index expecteds) w).1
      = ((gensim_predictions other queries
          ≫= λ p, get_accuracy 1 p queries gensim_index expecteds) w).1.
Proof.
  intros Hflat Hpairs predicted.
  assert (flann_predictions 1 index queries w = (inr predicted, w)) as Hflann.
  { unfold flann_predictions, predicted. rewrite decide_True by done.
    rewrite <-(comprehension_pure (λ query, ids_value [ids query]) queries w).
    apply comprehension_ext.
    intros query w' Hquery. by rewrite bind_run, lift_run, Hflat. }
  assert ((gensim_predictions other queries w).1 = inr predicted) as Hgensim.
  { unfold gensim_predictions, predicted. clear Hflat Hflann predicted.
    assert (∀ evs, (comprehension
              (λ query, r ← Similarity_getitem other query;
                        ids0 ← lift (positions r); mret (ids_value ids0))
              queries (extend_trace evs w)).1
            = inr ((λ query, ids_value [ids query]) <$> queries)) as Hall.
    { induction queries as [|q queries IH]; intros evs; [done|].
      simpl. rewrite !bind_run, getitem_run. cbn [heap extend_trace].
      rewrite Hpairs by left. rewrite bind_run, lift_run. cbn [positions].
      rewrite ret_run, bind_run, extend_trace_app.
      specialize (IH (λ query Hq, Hpairs query (list_elem_of_further _ _ _ Hq))
                     (evs ++ [Queried other 1])).
      destruct (comprehension _ queries _) as [[e|ys] w']; cbn [fst] in *; [done|].
      rewrite ret_run. cbn [fst]. by simplify_eq. }
    specialize (Hall []). by rewrite extend_trace_nil in Hall. }
  split; [by rewrite Hflann|]. split; [done|].
  intros gensim_index expecteds.
  rewrite !bind_run, Hflann.
  destruct (gensim_predictions_run other queries w) as [evs Hevs].
  destruct (gensim_predictions other queries w) as [r w'].
  cbn [fst snd] in *. subst r w'.
  by rewrite !get_accuracy_run.
Qed.

Lemma flann_predictions_single_witness :
  let w := world_of (with_num_best (Some 1) (exact_index one_doc)) in
  (flann_predictions 1 (flann_flat 0 1%Qc) unit_query w).1 = inr [ids_value [0]]
  ∧ (gensim_predictions 0%nat unit_query w).1 = inr [ids_value [0]].
Proof.
  pose proof (flann_predictions_single (flann_flat 0 1%Qc) 0%nat unit_query
                (λ _, 0) (λ _, 1%Qc)
                (world_of (with_num_best (Some 1) (exact_index one_doc)))) as Hthm.
  cbv zeta in Hthm.
  destruct Hthm as (Hflann&Hgensim&_).
  - done.
  - intros query ->%list_elem_of_singleton. by_run.
  - split; [exact Hflann|exact Hgensim].
Defined.

(** C7, as stated, fails for a backend that answers with a bare
    [(id, score)] pair: [nn_index(...)[0]] is then the id itself, not a
    one-element list, and [get_accuracy] raises [TypeError] when it iterates
    over it; the backend answering [[(id, score)]] is given precision 1. *)
Lemma bare_pair_not_unwrapped :
  let w := world_of (with_num_best (Some 1) (exact_index one_doc)) in
  (flann_predictions 1 (flann_bare 0 1%Qc) unit_query w).1 = inr [VInt 0]
  ∧ ((flann_predictions 1 (flann_bare 0 1%Qc) unit_query
      ≫= λ p, get_accuracy 1 p unit_query 0%nat None) w).1
    = inl TypeError
  ∧ (gensim_predictions 0%nat unit_query w).1 = inr [ids_value [0]]
  ∧ ((gensim_predictions 0%nat unit_query
      ≫= λ p, get_accuracy 1 p unit_query 0%nat None) w).1
    = inr (1%Qc, 0%Qc).
Proof. split; [by_run|]. split; [by_run|]. split; by_run. Qed.

(** ** Timing *)

(** X1: what [profile] does when the decorated function returns every time:
    three passes one after the other, each starting in the world the previous
    one left, the clock read immediately before and after each; the smallest of
    the three durations, in milliseconds, divided by the constant
    [NUM_QUERIES] is logged as the time per query, then the three durations;
    the value of the last pass is returned. *)
Lemma profile_three_passes {A} (TOP_N : Z) (ACC name : string) (fn : M A)
    (w w1 w2 w3 : World) (r1 r2 r3 : A) :
  let w0 := extend_trace
              [Info "benchmarking %s at k=%s acc=%s" [AStr name; AInt TOP_N; AStr ACC]]
              w in
  fn (tick w0) = (inr r1, w1) →
  fn (tick (tick w1)) = (inr r2, w2) →
  fn (tick (tick w2)) = (inr r3, w3) →
  let times := [(now w1 - now w0)%Qc; (now w2 - now (tick w1))%Qc;
                (now w3 - now (tick w2))%Qc] in
  ∃ best,
    py_min times = inr best
    ∧ best ∈ times
    ∧ Forall (λ t, (best ≤ t)%Qc) times
    ∧ profile TOP_N ACC name fn w
      = (inr r3,
         extend_trace
           [Info "%s took %.3fms/query"
                 [AStr name; ANum (Qc_of_Z 1000 * best / Qc_of_Z NUM_QUERIES)%Qc];
            Info "%s raw timings: %s" [AStr name; ANums times]]
           (tick w3)).
Proof.
  intros w0 H1 H2 H3 times.
  destruct (py_min times) as [e|best] eqn:Hbest; [done|].
  exists best. split; [done|].
  assert (best ∈ times ∧ Forall (λ t, (best ≤ t)%Qc) times) as [Hin Hle].
  { unfold times, py_min in *. simpl in Hbest. injection Hbest as <-.
    repeat case_decide; (split; [set_solver|]);
      repeat constructor; try done;
      eauto using Qcle_refl, Qclt_le_weak, Qcnot_lt_le, Qcle_trans,
                  Qclt_trans, Qcle_lt_trans, Qclt_le_trans. }
  split; [done|]. split; [done|].
  unfold profile. rewrite bind_run, info_run. fold w0.
  cbv beta iota. cbn [for_fold seq REPEATS].
  repeat (first [rewrite bind_run | rewrite time_run | rewrite ret_run
                | rewrite H1 | rewrite H2 | rewrite H3];
          cbv beta iota; cbn [app]).
  fold times. rewrite lift_run, Hbest. cbv beta iota.
  repeat (first [rewrite bind_run | rewrite info_run | rewrite lift_run];
          cbv beta iota).
  by rewrite extend_trace_app.
Qed.

(** C6 at a workload of one query whose passes take one second each:
    [gensim_1by1] queries the index three times and logs 10 ms per query,
    1000 * 1 / [NUM_QUERIES], where the minimum duration in milliseconds
    divided by the number of queries in the workload is 1000. *)
Theorem latency_of_one_query :
  let w := world_of (exact_index one_doc) in
  trace (gensim_1by1 2 "high" 0%nat unit_query w).2
  = [Info "benchmarking %s at k=%s acc=%s" [AStr "gensim_1by1"; AInt 2; AStr "high"];
     Queried 0 1; Queried 0 1; Queried 0 1;
     Info "%s took %.3fms/query" [AStr "gensim_1by1"; ANum (Qc_of_Z 10)];
     Info "%s raw timings: %s" [AStr "gensim_1by1"; ANums [1%Qc; 1%Qc; 1%Qc]]]
  ∧ (Qc_of_Z 1000 * 1 / Qc_of_Z (Z.of_nat (length unit_query)))%Qc = Qc_of_Z 1000
  ∧ Qc_of_Z 10 ≠ Qc_of_Z 1000.
Proof. split; [by_run|]. split; [by_run|]. by intros ?%Z2Qc_inj. Qed.

(** ** The main block *)








(** ** Queries to the ground-truth index *)

Lemma oracle_queries_app (index : ref) (t1 t2 : list event) :
  oracle_queries index (t1 ++ t2)
  = (oracle_queries index t1 + oracle_queries index t2)%nat.
Proof. unfold oracle_queries. apply sum_list_with_app. Qed.

Lemma oracle_queries_replicate (index : ref) (n : nat) :
  oracle_queries index (replicate n (Queried index 1)) = n.
Proof.
  induction n as [|n IH]; [done|].
  unfold oracle_queries in *. simpl. rewrite decide_True by done. by rewrite IH.
Qed.

Lemma started_all (TOP_N : Z) (s : Similarity)
    (expecteds : option (list (list Z * list Qc)))
    (items : list (nat * (value * Vec))) (locals result : Qc * list Qc) :
  pure_loop TOP_N s expecteds locals items = inr result →
  started TOP_N s expecteds locals items = length items.
Proof.
  revert locals. induction items as [|item items IH]; intros locals; [done|].
  intros (locals'&Hstep&Hrest)%pure_loop_cons_inr.
  simpl. rewrite Hstep. by rewrite (IH _ Hrest).
Qed.



Lemma get_accuracy_queries (TOP_N : Z) (predicted_ids : list value)
    (queries : list Vec) (gensim_index : ref) (w : World) (result : Qc * Qc) :
  (get_accuracy TOP_N predicted_ids queries gensim_index None w).1 = inr result →
  oracle_queries gensim_index
    (trace (get_accuracy TOP_N predicted_ids queries gensim_index None w).2)
  = (oracle_queries gensim_index (trace w)
     + length predicted_ids `min` length queries)%nat.
Proof.
  rewrite get_accuracy_run. cbn [fst snd].
  intros Hacc. destruct result as [precision avg_diff].
  apply pure_accuracy_inr in Hacc as (c&d&Hloop&_).
  cbn [trace extend_trace assign_num_best]. unfold asked.
  rewrite (started_all _ _ _ _ _ _ Hloop), length_enumerate_zip.
  rewrite !oracle_queries_app, oracle_queries_replicate.
  unfold oracle_queries at 2. simpl. lia.
Qed.




(** * Further properties *)

(** ** The title index *)

Lemma lower_char_idemp (c : Ascii.ascii) : lower_char (lower_char c) = lower_char c.
Proof. destruct c as [[] [] [] [] [] [] [] []]; reflexivity. Qed.

Lemma lower_idemp (s : string) : lower (lower s) = lower s.
Proof. induction s as [|c s IH]; [done|]. simpl. by rewrite lower_char_idemp, IH. Qed.

Lemma enumerate_from_snoc {A} (start : nat) (xs : list A) (x : A) :
  enumerate_from start (xs ++ [x])
  = enumerate_from start xs ++ [((start + length xs)%nat, x)].
Proof.
  revert start. induction xs as [|y xs IH]; intros start; simpl.
  - by rewrite Nat.add_0_r.
  - rewrite IH. by replace (S start + length xs)%nat with (start + S (length xs))%nat by lia.
Qed.

Lemma title2id_of_snoc (id2title : list string) (title : string) :
  title2id_of (id2title ++ [title])
  = <[lower title := length id2title]> (title2id_of id2title).
Proof.
  unfold title2id_of, enumerate. by rewrite enumerate_from_snoc, foldl_app.
Qed.

Lemma title2id_of_nil : title2id_of [] = ∅.
Proof. reflexivity. Qed.

Lemma title2id_of_None (id2title : list string) (key : string) :
  title2id_of id2title !! key = None ↔ key ∉ lower <$> id2title.
Proof.
  induction id2title as [|title id2title IH] using rev_ind.
  - rewrite title2id_of_nil, lookup_empty. set_solver.
  - rewrite title2id_of_snoc, lookup_insert_None, IH, fmap_app. set_solver.
Qed.

Lemma title2id_of_Some (id2title : list string) (key : string) (pos : nat) :
  title2id_of id2title !! key = Some pos ↔
  (∃ title, id2title !! pos = Some title ∧ lower title = key)
  ∧ ∀ pos' title', (pos < pos')%nat → id2title !! pos' = Some title' →
                   lower title' ≠ key.
Proof.
  revert pos. induction id2title as [|last id2title IH] using rev_ind; intros pos.
  - rewrite title2id_of_nil, lookup_empty. split; [done|].
    by intros [(title&?&_) _].
  - rewrite title2id_of_snoc, lookup_insert.
    destruct (decide (lower last = key)) as [Hlast|Hlast].
    + split.
      * intros [= <-]. split.
        -- exists last. by rewrite lookup_app_r, Nat.sub_diag by done.
        -- intros pos' title' Hlt Hpos'. apply lookup_lt_Some in Hpos'.
           rewrite length_app in Hpos'. simpl in Hpos'. lia.
      * intros [(title&Hpos&Htitle) Hlater].
        pose proof (lookup_lt_Some _ _ _ Hpos) as Hlt.
        rewrite length_app in Hlt. simpl in Hlt.
        destruct (decide (pos = length id2title)) as [->|Hne]; [done|].
        exfalso. apply (Hlater (length id2title) last); [lia| |done].
        by rewrite lookup_app_r, Nat.sub_diag by done.
    + rewrite IH. split.
      * intros [(title&Hpos&Htitle) Hlater]. split.
        -- exists title. by rewrite lookup_app_l by by eapply lookup_lt_Some.
        -- intros pos' title' Hlt Hpos'.
           destruct (decide (pos' < length id2title)%nat) as [Hin|Hout].
           ++ rewrite lookup_app_l in Hpos' by done. by eapply Hlater.
           ++ rewrite lookup_app_r in Hpos' by lia.
              destruct (pos' - length id2title)%nat; [|done].
              by injection Hpos' as <-.
      * intros [(title&Hpos&Htitle) Hlater].
        assert (pos < length id2title)%nat as Hin.
        { destruct (decide (pos < length id2title)%nat) as [|Hout]; [done|].
          rewrite lookup_app_r in Hpos by lia.
          destruct (pos - length id2title)%nat; [|done].
          injection Hpos as <-. done. }
        rewrite lookup_app_l in Hpos by done. split; [by exists title|].
        intros pos' title' Hlt Hpos'. apply (Hlater pos' title' Hlt).
        by rewrite lookup_app_l by by eapply lookup_lt_Some.
Qed.

Lemma title2id_of_round_trip (id2title : list string) (pos : nat)
    (title title' : string) :
  NoDup (lower <$> id2title) →
  id2title !! pos = Some title →
  lower title' = lower title →
  title2id_of id2title !! lower title' = Some pos.
Proof.
  intros Hnodup Hpos ->. apply title2id_of_Some.
  split; [by exists title|].
  intros pos' other Hlt Hpos' Heq.
  assert (pos = pos'); [|lia].
  eapply NoDup_lookup; [exact Hnodup| |].
  - by rewrite list_lookup_fmap, Hpos.
  - rewrite list_lookup_fmap, Hpos'. simpl. by rewrite Heq.
Qed.

(** X2: the dictionary of line 199 maps a key to the last position whose
    lower-cased title is that key, and has no other keys; so where no two
    titles agree up to case, looking up the lower-cased title of a position
    gives the position back. *)
Theorem title2id_lookup (id2title : list string) :
  (∀ key pos,
     title2id_of id2title !! key = Some pos ↔
     (∃ title, id2title !! pos = Some title ∧ lower title = key)
     ∧ ∀ pos' title', (pos < pos')%nat → id2title !! pos' = Some title' →
                      lower title' ≠ key)
  ∧ (∀ key, title2id_of id2title !! key = None ↔ key ∉ lower <$> id2title)
  ∧ (NoDup (lower <$> id2title) →
     ∀ pos title, id2title !! pos = Some title →
                  title2id_of id2title !! lower title = Some pos).
Proof.
  split; [exact (title2id_of_Some id2title)|].
  split; [exact (title2id_of_None id2title)|].
  intros Hnodup pos title Hpos. by eapply title2id_of_round_trip.
Qed.

(** ** [print_similar] *)

Lemma print_pairs_lines (id2title : list string) (pairs : list (Z * Qc))
    (titles : list string) (out : list token) :
  Forall2 (λ pair title, py_item id2title pair.1 = inr title) pairs titles →
  print_pairs id2title pairs out
  = (out ++ concat (zip_with (λ pair title,
                                [TInt pair.1; TRepr title; TNum pair.2; TNewline])
                             pairs titles),
     inr ()).
Proof.
  intros Hpairs. revert out.
  induction Hpairs as [|[pos2 sim] title pairs titles Htitle _ IH]; intros out.
  - simpl. by rewrite app_nil_r.
  - simpl in *. rewrite Htitle, IH. by rewrite <-app_assoc.
Qed.

Lemma print_pairs_app (id2title : list string) (pairs rest : list (Z * Qc))
    (titles : list string) (out : list token) :
  Forall2 (λ pair title, py_item id2title pair.1 = inr title) pairs titles →
  print_pairs id2title (pairs ++ rest) out
  = print_pairs id2title rest
      (out ++ concat (zip_with (λ pair title,
                                  [TInt pair.1; TRepr title; TNum pair.2; TNewline])
                               pairs titles)).
Proof.
  intros Hpairs. revert out.
  induction Hpairs as [|[pos2 sim] title pairs titles Htitle _ IH]; intros out.
  - simpl. by rewrite app_nil_r.
  - simpl in *. rewrite Htitle, IH. by rewrite <-app_assoc.
Qed.

(** X3: [print_similar] on a title that no document has, up to case, raises
    [KeyError] from the dictionary of line 199: nothing is printed and the
    index is not asked anything. *)
Theorem print_similar_unknown_title (title : string) (index_gensim : ref)
    (id2title : list string) (w : World) :
  lower title ∉ lower <$> id2title →
  print_similar title index_gensim id2title (title2id_of id2title) w
  = (([], inl (KeyError (lower title))), w).
Proof.
  intros Hunknown. unfold print_similar.
  by rewrite (proj2 (title2id_of_None id2title (lower title)) Hunknown).
Qed.

Lemma print_similar_unknown_title_witness :
  print_similar "Zebra" 0%nat sample_titles (title2id_of sample_titles)
                (world_of (exact_index two_docs))
  = (([], inl (KeyError "zebra")), world_of (exact_index two_docs)).
Proof.
  apply (print_similar_unknown_title "Zebra" 0%nat sample_titles).
  apply (bool_decide_unpack _). vm_compute. exact I.
Defined.

(** X4: [print_similar] on the title of a document, in any capitalisation,
    where no two titles agree up to case: the index is asked once, with the
    vector it keeps for that document, and for every pair of the answer one
    line is printed, the id, the title of that id and the similarity, in the
    order of the answer. *)
Theorem print_similar_lines (title known : string) (pos : nat)
    (index_gensim : ref) (id2title : list string) (w : World)
    (v : Vec) (pairs : list (Z * Qc)) (titles : list string) :
  NoDup (lower <$> id2title) →
  id2title !! pos = Some known →
  lower title = lower known →
  vector_by_id (heap w index_gensim) (Z.of_nat pos) = inr v →
  getitem (heap w index_gensim) (num_best (heap w index_gensim)) v
  = inr (Best pairs) →
  Forall2 (λ pair title, py_item id2title pair.1 = inr title) pairs titles →
  print_similar title index_gensim id2title (title2id_of id2title) w
  = ((concat (zip_with (λ pair title,
                          [TInt pair.1; TRepr title; TNum pair.2; TNewline])
                       pairs titles),
      inr ()),
     extend_trace [Queried index_gensim 1] w).
Proof.
  intros Hnodup Hpos Htitle Hv Hanswer Htitles. unfold print_similar.
  rewrite (title2id_of_round_trip _ _ _ _ Hnodup Hpos Htitle).
  rewrite bind_run, vector_by_id_run, Hv. cbv beta iota.
  rewrite getitem_run. cbn [heap extend_trace]. rewrite Hanswer.
  by rewrite (print_pairs_lines _ _ _ _ Htitles).
Qed.

Lemma print_similar_lines_witness :
  let w := world_of (with_num_best (Some 2) (exact_index two_docs)) in
  print_similar "ANARCHISM" 0%nat sample_titles (title2id_of sample_titles) w
  = (([TInt 0; TRepr "Anarchism"; TNum 1%Qc; TNewline;
       TInt 1; TRepr "Autism"; TNum half; TNewline], inr ()),
     extend_trace [Queried 0 1] w).
Proof.
  apply (print_similar_lines "ANARCHISM" "Anarchism" 0 0%nat sample_titles
           (world_of (with_num_best (Some 2) (exact_index two_docs)))
           [1%Qc] [(0, 1%Qc); (1, half)] ["Anarchism"; "Autism"]).
  - apply (bool_decide_unpack _). vm_compute. exact I.
  - reflexivity.
  - reflexivity.
  - reflexivity.
  - by_run.
  - repeat constructor.
Defined.

(** X5: where an id of the answer is not a position of [id2title],
    [print_similar] has printed the lines of the pairs before it and the id
    itself when the lookup raises [IndexError]. *)
Theorem print_similar_bad_id (title known : string) (pos : nat)
    (index_gensim : ref) (id2title : list string) (w : World)
    (v : Vec) (pairs rest : list (Z * Qc)) (titles : list string)
    (pos2 : Z) (sim : Qc) :
  NoDup (lower <$> id2title) →
  id2title !! pos = Some known →
  lower title = lower known →
  vector_by_id (heap w index_gensim) (Z.of_nat pos) = inr v →
  getitem (heap w index_gensim) (num_best (heap w index_gensim)) v
  = inr (Best (pairs ++ (pos2, sim) :: rest)) →
  Forall2 (λ pair title, py_item id2title pair.1 = inr title) pairs titles →
  ¬ (- Z.of_nat (length id2title) ≤ pos2 < Z.of_nat (length id2title)) →
  print_similar title index_gensim id2title (title2id_of id2title) w
  = ((concat (zip_with (λ pair title,
                          [TInt pair.1; TRepr title; TNum pair.2; TNewline])
                       pairs titles) ++ [TInt pos2],
      inl (Raised IndexError)),
     extend_trace [Queried index_gensim 1] w).
Proof.
  intros Hnodup Hpos Htitle Hv Hanswer Htitles Hrange. unfold print_similar.
  rewrite (title2id_of_round_trip _ _ _ _ Hnodup Hpos Htitle).
  rewrite bind_run, vector_by_id_run, Hv. cbv beta iota.
  rewrite getitem_run. cbn [heap extend_trace]. rewrite Hanswer.
  rewrite (print_pairs_app _ _ _ _ _ Htitles). simpl.
  assert (py_item id2title pos2 = inl IndexError) as ->; [|done].
  unfold py_item, list_item. repeat case_decide; try lia.
  - rewrite lookup_ge_None_2 by lia. done.
  - done.
Qed.

Lemma print_similar_bad_id_witness :
  let w := world_of (with_num_best (Some 2) (exact_index two_docs)) in
  print_similar "autism" 0%nat ["Autism"] (title2id_of ["Autism"]) w
  = (([TInt 0; TRepr "Autism"; TNum 1%Qc; TNewline; TInt 1],
      inl (Raised IndexError)),
     extend_trace [Queried 0 1] w).
Proof.
  apply (print_similar_bad_id "autism" "Autism" 0 0%nat ["Autism"]
           (world_of (with_num_best (Some 2) (exact_index two_docs)))
           [1%Qc] [(0, 1%Qc)] [] ["Autism"] 1 half).
  - apply (bool_decide_unpack _). vm_compute. exact I.
  - reflexivity.
  - reflexivity.
  - reflexivity.
  - by_run.
  - repeat constructor.
  - simpl. lia.
Defined.

(** ** [profile] and the timed functions *)

(** [profile], pass by pass. *)
Lemma profile_run {A} (TOP_N : Z) (ACC name : string) (fn : M A) (w : World) :
  let w0 := extend_trace
              [Info "benchmarking %s at k=%s acc=%s" [AStr name; AInt TOP_N; AStr ACC]]
              w in
  profile TOP_N ACC name fn w
  = match fn (tick w0) with
    | (inl e, w1) => (inl e, w1)
    | (inr r1, w1) =>
        match fn (tick (tick w1)) with
        | (inl e, w2) => (inl e, w2)
        | (inr r2, w2) =>
            match fn (tick (tick w2)) with
            | (inl e, w3) => (inl e, w3)
            | (inr r3, w3) =>
                let times := [(now w1 - now w0)%Qc; (now w2 - now (tick w1))%Qc;
                              (now w3 - now (tick w2))%Qc] in
                match py_min times with
                | inl e => (inl e, tick w3)
                | inr best =>
                    (inr r3,
                     extend_trace
                       [Info "%s took %.3fms/query"
                             [AStr name;
                              ANum (Qc_of_Z 1000 * best / Qc_of_Z NUM_QUERIES)%Qc];
                        Info "%s raw timings: %s" [AStr name; ANums times]]
                       (tick w3))
                end
            end
        end
    end.
Proof.
  intros w0. unfold profile. rewrite bind_run, info_run. fold w0.
  cbv beta iota. cbn [for_fold seq REPEATS].
  rewrite !bind_run, time_run. cbv beta iota. rewrite !bind_run.
  destruct (fn (tick w0)) as [[e|r1] w1]; [done|]. cbv beta iota.
  rewrite !bind_run, time_run. cbv beta iota. rewrite ret_run. cbv beta iota.
  rewrite !bind_run, time_run. cbv beta iota. rewrite !bind_run.
  destruct (fn (tick (tick w1))) as [[e|r2] w2]; [done|]. cbv beta iota.
  rewrite !bind_run, time_run. cbv beta iota. rewrite ret_run. cbv beta iota.
  rewrite !bind_run, time_run. cbv beta iota. rewrite !bind_run.
  destruct (fn (tick (tick w2))) as [[e|r3] w3]; [done|]. cbv beta iota.
  rewrite !bind_run, time_run. cbv beta iota. rewrite ret_run. cbv beta iota.
  rewrite ret_run. cbv beta iota. cbn [app]. rewrite bind_run, lift_run.
  destruct (py_min _) as [e|best]; [done|]. cbv beta iota.
  rewrite !bind_run, info_run. cbv beta iota.
  rewrite !bind_run, info_run. cbv beta iota.
  rewrite lift_run. by rewrite extend_trace_app.
Qed.

Lemma profile_three_passes_witness :
  let fn : M unit :=
    for_each (λ query, Similarity_getitem 0%nat query;; mret ()) unit_query in
  let w := world_of (exact_index one_doc) in
  let w0 := extend_trace
              [Info "benchmarking %s at k=%s acc=%s"
                    [AStr "gensim_1by1"; AInt 2; AStr "high"]] w in
  let w1 := (fn (tick w0)).2 in
  let w2 := (fn (tick (tick w1))).2 in
  let w3 := (fn (tick (tick w2))).2 in
  let times := [(now w1 - now w0)%Qc; (now w2 - now (tick w1))%Qc;
                (now w3 - now (tick w2))%Qc] in
  ∃ best,
    py_min times = inr best
    ∧ best ∈ times
    ∧ Forall (λ t, (best ≤ t)%Qc) times
    ∧ profile 2 "high" "gensim_1by1" fn w
      = (inr (),
         extend_trace
           [Info "%s took %.3fms/query"
                 [AStr "gensim_1by1";
                  ANum (Qc_of_Z 1000 * best / Qc_of_Z NUM_QUERIES)%Qc];
            Info "%s raw timings: %s" [AStr "gensim_1by1"; ANums times]]
           (tick w3)).
Proof.
  intros fn w w0 w1 w2 w3.
  exact (profile_three_passes 2 "high" "gensim_1by1" fn w w1 w2 w3 () () ()
           eq_refl eq_refl eq_refl).
Defined.

(** X6: [profile] raises exactly when one of the three passes raises, with
    the error of that pass and in the state the pass left: the passes after
    it do not run and neither the time per query nor the raw timings are
    logged. *)
Theorem profile_raises {A} (TOP_N : Z) (ACC name : string) (fn : M A)
    (w w' : World) (e : exn) :
  let w0 := extend_trace
              [Info "benchmarking %s at k=%s acc=%s" [AStr name; AInt TOP_N; AStr ACC]]
              w in
  profile TOP_N ACC name fn w = (inl e, w') ↔
  fn (tick w0) = (inl e, w')
  ∨ (∃ r1 w1, fn (tick w0) = (inr r1, w1) ∧ fn (tick (tick w1)) = (inl e, w'))
  ∨ (∃ r1 w1 r2 w2,
       fn (tick w0) = (inr r1, w1) ∧ fn (tick (tick w1)) = (inr r2, w2)
       ∧ fn (tick (tick w2)) = (inl e, w')).
Proof.
  intros w0. rewrite profile_run. fold w0. cbv zeta.
  destruct (fn (tick w0)) as [[e1|r1] w1] eqn:H1.
  { split; [by left|]. intros [?|[(?&?&?&?)|(?&?&?&?&?&?&?)]]; congruence. }
  destruct (fn (tick (tick w1))) as [[e2|r2] w2] eqn:H2.
  { split; [intros H; right; left; exists r1, w1; by rewrite H2|].
    intros [?|[(?&?&?&?)|(?&?&?&?&?&?&?)]]; congruence. }
  destruct (fn (tick (tick w2))) as [[e3|r3] w3] eqn:H3.
  { split; [intros H; right; right; exists r1, w1, r2, w2; by rewrite H2, H3|].
    intros [?|[(?&?&?&?)|(?&?&?&?&?&?&?)]]; congruence. }
  simpl. split; [done|].
  intros [?|[(?&?&?&?)|(?&?&?&?&?&?&?)]]; congruence.
Qed.

(** What a returning [profile] leaves, for a decorated function that keeps
    the index objects, the global and the clock as they are and puts [n]
    query vectors to the index at [index] whenever it returns. *)
Lemma profile_counts {A} (TOP_N : Z) (ACC name : string) (fn : M A)
    (index : ref) (n : nat) (w w' : World) (r : A) :
  (∀ w0 r0 w1, fn w0 = (inr r0, w1) →
     heap w1 = heap w0 ∧ index_lsh w1 = index_lsh w0 ∧ reads w1 = reads w0
     ∧ oracle_queries index (trace w1) = (oracle_queries index (trace w0) + n)%nat) →
  profile TOP_N ACC name fn w = (inr r, w') →
  heap w' = heap w ∧ index_lsh w' = index_lsh w
  ∧ reads w' = (reads w + 2 * REPEATS)%nat
  ∧ oracle_queries index (trace w')
    = (oracle_queries index (trace w) + REPEATS * n)%nat.
Proof.
  intros Hfn. rewrite profile_run. cbv zeta.
  destruct (fn _) as [[e1|r1] w1] eqn:H1; [done|].
  destruct (fn (tick (tick w1))) as [[e2|r2] w2] eqn:H2; [done|].
  destruct (fn (tick (tick w2))) as [[e3|r3] w3] eqn:H3; [done|].
  simpl. intros [= <- <-].
  apply Hfn in H1 as (Hh1 & Hg1 & Hr1 & Hq1).
  apply Hfn in H2 as (Hh2 & Hg2 & Hr2 & Hq2).
  apply Hfn in H3 as (Hh3 & Hg3 & Hr3 & Hq3).
  simpl in *. rewrite oracle_queries_app in *. simpl in *.
  unfold REPEATS. repeat split; try congruence; lia.
Qed.

Lemma for_each_getitem_counts (index : ref) (queries : list Vec) (w w1 : World)
    (r : unit) :
  for_each (λ query, Similarity_getitem index query;; mret ()) queries w = (inr r, w1) →
  heap w1 = heap w ∧ index_lsh w1 = index_lsh w ∧ reads w1 = reads w
  ∧ oracle_queries index (trace w1)
    = (oracle_queries index (trace w) + length queries)%nat.
Proof.
  revert w. induction queries as [|query queries IH]; intros w.
  - simpl. rewrite ret_run. intros [= <- <-]. repeat split; lia.
  - cbn [for_each]. rewrite bind_run, bind_run, getitem_run.
    destruct (getitem _ _ _) as [e|answer]; [done|]. cbv beta iota.
    rewrite ret_run. cbv beta iota. intros (Hh & Hg & Hr & Hq)%IH.
    simpl in *. rewrite oracle_queries_app in Hq. simpl in Hq.
    rewrite decide_True in Hq by done. repeat split; try done. lia.
Qed.

Lemma getitem_batch_counts (index : ref) (queries : list Vec) (w w1 : World)
    (r : unit) :
  (Similarity_getitem_batch index queries;; mret ()) w = (inr r, w1) →
  heap w1 = heap w ∧ index_lsh w1 = index_lsh w ∧ reads w1 = reads w
  ∧ oracle_queries index (trace w1)
    = (oracle_queries index (trace w) + length queries)%nat.
Proof.
  rewrite bind_run. unfold Similarity_getitem_batch.
  rewrite bind_run. unfold emit. cbv beta iota. rewrite read_run.
  destruct (getitem_batch _ _ _) as [e|answer]; [done|]. cbv beta iota.
  rewrite ret_run. intros [= <- <-]. simpl.
  rewrite oracle_queries_app. simpl. rewrite decide_True by done.
  repeat split; lia.
Qed.

(** X7: when the gensim block of the main block returns, it has put
    [2 * REPEATS * len(queries)] query vectors to the gensim index, in
    [REPEATS] batches and [REPEATS * len(queries)] single queries; it has
    read the clock [4 * REPEATS] times and left every index object and the
    global [index_lsh] as they were. *)
Theorem gensim_block_queries (TOP_N : Z) (ACC : string) (queries : list Vec)
    (index_gensim : ref) (w : World) :
  (gensim_block TOP_N ACC queries index_gensim w).1 = inr () →
  let w' := (gensim_block TOP_N ACC queries index_gensim w).2 in
  oracle_queries index_gensim (trace w')
  = (oracle_queries index_gensim (trace w) + 2 * REPEATS * length queries)%nat
  ∧ reads w' = (reads w + 4 * REPEATS)%nat
  ∧ heap w' = heap w
  ∧ index_lsh w' = index_lsh w.
Proof.
  unfold gensim_block. rewrite bind_run.
  destruct (gensim_at_once _ _ _ _ w) as [[e|[]] w1] eqn:H1; [done|].
  destruct (gensim_1by1 _ _ _ _ w1) as [[e|[]] w2] eqn:H2; [done|].
  intros _. cbn [snd].
  eapply profile_counts in H1 as (Hh1 & Hg1 & Hr1 & Hq1);
    [|intros ???; apply getitem_batch_counts].
  eapply profile_counts in H2 as (Hh2 & Hg2 & Hr2 & Hq2);
    [|intros ???; apply for_each_getitem_counts].
  unfold REPEATS in *. repeat split; try congruence; lia.
Qed.

Lemma gensim_block_queries_witness :
  let w := world_of (exact_index two_docs) in
  let w' := (gensim_block 2 "high" unit_query 0%nat w).2 in
  oracle_queries 0%nat (trace w')
  = (oracle_queries 0%nat (trace w) + 2 * REPEATS * length unit_query)%nat
  ∧ reads w' = (reads w + 4 * REPEATS)%nat
  ∧ heap w' = heap w
  ∧ index_lsh w' = index_lsh w.
Proof.
  apply (gensim_block_queries 2 "high" unit_query 0%nat
           (world_of (exact_index two_docs))).
  by_run.
Defined.

Lemma for_each_quiet {A} (body : A → M unit) (xs : list A) (w : World) :
  (∀ x w0, (body x w0).2 = w0) → (for_each body xs w).2 = w.
Proof.
  intros Hbody. revert w. induction xs as [|x xs IH]; intros w; [done|].
  cbn [for_each]. rewrite bind_run. specialize (Hbody x w).
  destruct (body x w) as [[e|[]] w0]; simpl in Hbody; subst w0; [done|].
  apply IH.
Qed.

Lemma lift_then_quiet {A B} (r : exn + A) (k : A → B) (w : World) :
  ((x ← lift r; mret (k x)) w).2 = w.
Proof. rewrite bind_run, lift_run. by destruct r. Qed.

(** What [profile] leaves, returning or raising, for a decorated function
    that leaves the world as it is. *)
Lemma profile_quiet {A} (TOP_N : Z) (ACC name : string) (fn : M A) (w : World) :
  (∀ w0, (fn w0).2 = w0) →
  let w' := (profile TOP_N ACC name fn w).2 in
  heap w' = heap w ∧ index_lsh w' = index_lsh w ∧ clock w' = clock w
  ∧ ∀ index, oracle_queries index (trace w') = oracle_queries index (trace w).
Proof.
  intros Hfn. rewrite profile_run. cbv zeta.
  pose proof (Hfn (tick (extend_trace
    [Info "benchmarking %s at k=%s acc=%s" [AStr name; AInt TOP_N; AStr ACC]] w)))
    as H1.
  destruct (fn _) as [[e1|r1] w1]; simpl in H1; subst w1.
  { simpl. repeat split; try done. intros index.
    rewrite oracle_queries_app. simpl. lia. }
  match goal with |- context [fn ?w1] => pose proof (Hfn w1) as H2;
    destruct (fn w1) as [[e2|r2] w2]; simpl in H2; subst w2 end.
  { simpl. repeat split; try done. intros index.
    rewrite oracle_queries_app. simpl. lia. }
  match goal with |- context [fn ?w2] => pose proof (Hfn w2) as H3;
    destruct (fn w2) as [[e3|r3] w3]; simpl in H3; subst w3 end.
  { simpl. repeat split; try done. intros index.
    rewrite oracle_queries_app. simpl. lia. }
  simpl. repeat split; try done. intros index.
  rewrite !oracle_queries_app. simpl. lia.
Qed.

(** X8: the timed functions of flann, scikit-learn, annoy and lsh, whether
    they return or raise, leave every gensim index object, the global
    [index_lsh] and the clock as they were and put no query to any gensim
    index. *)
Theorem library_timings_frame (TOP_N : Z) (ACC : string) (queries : list Vec)
    (w : World) :
  let untouched (w' : World) :=
    heap w' = heap w ∧ index_lsh w' = index_lsh w ∧ clock w' = clock w
    ∧ ∀ index, oracle_queries index (trace w') = oracle_queries index (trace w) in
  (∀ index, untouched (flann_1by1 TOP_N ACC index queries w).2)
  ∧ (∀ index, untouched (flann_at_once TOP_N ACC index queries w).2)
  ∧ (∀ index, untouched (sklearn_1by1 TOP_N ACC index queries w).2)
  ∧ (∀ index, untouched (sklearn_at_once TOP_N ACC index queries w).2)
  ∧ (∀ index, untouched (annoy_1by1 TOP_N ACC index queries w).2)
  ∧ (∀ index, untouched (lsh_1by1 TOP_N ACC index queries w).2).
Proof.
  cbv zeta.
  split; [|split; [|split; [|split; [|split]]]]; intros index;
    apply profile_quiet; intros w0;
    first [ apply for_each_quiet; intros query w1; apply lift_then_quiet
          | apply lift_then_quiet ].
Qed.

(** ** The prediction adapters *)

Lemma mapM_inr_inv {A B} (f : A → exn + B) (l : list A) (k : list B) :
  mapM f l = inr k → Forall2 (λ x y, f x = inr y) l k.
Proof.
  revert k. induction l as [|x l IH]; intros k.
  - intros [= <-]. constructor.
  - intros (y&k0&Hy&Hk0&->)%mapM_cons_inr. constructor; [done|by apply IH].
Qed.

(** X9: asked for any number of neighbours other than one, pyflann answers a
    query with a pair of arrays that have one row per query point;
    [flann_predictions] takes the first row of the first array, the ids, as
    the prediction of the query, and touches nothing. *)
Theorem flann_predictions_rows (TOP_N : Z) (index : FlannIndex)
    (queries : list Vec) (ids : Vec → list Z) (w : World) :
  TOP_N ≠ 1 →
  (∀ query, query ∈ queries →
     ∃ rows rest,
       nn_index index (One query) TOP_N
       = inr (VSeq (VSeq (ids_value (ids query) :: rows) :: rest))) →
  flann_predictions TOP_N index queries w
  = (inr ((λ query, ids_value (ids query)) <$> queries), w).
Proof.
  intros HK Hshape. unfold flann_predictions. rewrite decide_False by done.
  rewrite <-comprehension_pure. apply comprehension_ext.
  intros query w' (rows & rest & Hanswer)%Hshape.
  rewrite bind_run, lift_run, Hanswer. cbv beta iota. simpl.
  by rewrite bind_run, lift_run.
Qed.

Lemma flann_predictions_rows_witness :
  flann_predictions 2 (flann_nested [1; 0]) unit_query
                    (world_of (exact_index two_docs))
  = (inr ((λ _, ids_value [1; 0]) <$> unit_query), world_of (exact_index two_docs)).
Proof.
  apply (flann_predictions_rows 2 (flann_nested [1; 0]) unit_query (λ _, [1; 0])).
  - lia.
  - intros query _. by exists [], [VSeq [VSeq []]].
Defined.

(** X10: once the main block has bound the global [index_lsh] and for
    [TOP_N] not negative, what [lsh_predictions] returns for a query are the
    ids of the first candidates the bound index finds for it, in their order:
    never more than [TOP_N] of them, fewer only where the index finds fewer,
    and one prediction for every query. *)
Theorem lsh_predictions_at_most (TOP_N : Z) (index bound : LshIndex)
    (queries : list Vec) (w : World) (predictions : list value) :
  0 ≤ TOP_N →
  index_lsh w = Some bound →
  (lsh_predictions TOP_N index queries w).1 = inr predictions →
  Forall2 (λ query predicted,
             ∃ found ids,
               Find bound query = inr found
               ∧ predicted = ids_value ids
               ∧ ids `prefix_of` found.*1
               ∧ Z.of_nat (length ids) = Z.min TOP_N (Z.of_nat (length found)))
          queries predictions.
Proof.
  intros HK Hbound. rewrite lsh_predictions_run, Hbound. cbn [fst].
  intros Hall%mapM_inr_inv.
  eapply Forall2_impl; [exact Hall|].
  intros query predicted Hone. simpl in Hone.
  unfold mbind, exn_bind, mret, exn_ret in Hone.
  destruct (Find bound query) as [e|found]; [done|].
  injection Hone as <-. exists found, (slice_to TOP_N found).*1.
  split; [done|]. split; [done|].
  unfold slice_to. rewrite decide_True by done.
  rewrite fmap_take. split; [apply prefix_take|].
  rewrite length_take, length_fmap. lia.
Qed.

Lemma lsh_predictions_at_most_witness :
  let bound := lsh_finding [(3, half); (5, half)] in
  let w := (assign_index_lsh bound (world_of (exact_index one_doc))).2 in
  Forall2 (λ query predicted,
             ∃ found ids,
               Find bound query = inr found
               ∧ predicted = ids_value ids
               ∧ ids `prefix_of` found.*1
               ∧ Z.of_nat (length ids) = Z.min 1 (Z.of_nat (length found)))
          unit_query [ids_value [3]].
Proof.
  apply (lsh_predictions_at_most 1 (lsh_finding []) (lsh_finding [(3, half); (5, half)])
           unit_query
           (assign_index_lsh (lsh_finding [(3, half); (5, half)])
                             (world_of (exact_index one_doc))).2
           [ids_value [3]]).
  - lia.
  - reflexivity.
  - by_run.
Defined.

(** ** The main block *)

(** X11: a program name that contains none of the five keywords, such as
    [shootout.py] itself, runs no backend at all: the main block logs that
    it has finished and nothing else, and builds, times and evaluates
    nothing. *)
Theorem main_no_backend (TOP_N : Z) (ACC program : string) (builds : Builds)
    (queries : list Vec) (index_gensim : ref) (w : World) :
  Forall (λ b, str_in (keyword b) program = false) backends →
  main TOP_N ACC program builds queries index_gensim w
  = (inr (), extend_trace [Info "finished running %s" [AStr program]] w).
Proof.
  intros Hnone. unfold backends in Hnone. rewrite !Forall_cons in Hnone. simpl in Hnone.
  destruct Hnone as (Hgensim & Hflann & Hannoy & Hlsh & Hsklearn & _).
  unfold main. by rewrite Hgensim, Hflann, Hannoy, Hlsh, Hsklearn.
Qed.

Lemma main_no_backend_witness :
  main 2 "high" "shootout.py" (builds_with flann_failing) unit_query 0%nat
       (world_of (exact_index two_docs))
  = (inr (),
     extend_trace [Info "finished running %s" [AStr "shootout.py"]]
                  (world_of (exact_index two_docs))).
Proof.
  apply (main_no_backend 2 "high" "shootout.py" (builds_with flann_failing)
           unit_query 0%nat (world_of (exact_index two_docs))).
  repeat constructor.
Defined.

(** X12: the import and build-or-load step of a library runs only where the
    program name contains its keyword: two runs whose libraries agree on the
    named backends are the same run, whatever the steps of the others would
    have done. *)
Theorem main_builds_named_only (TOP_N : Z) (ACC program : string)
    (builds builds' : Builds) (queries : list Vec) (index_gensim : ref) (w : World) :
  (str_in "flann" program = true → build_flann builds = build_flann builds') →
  (str_in "annoy" program = true → build_annoy builds = build_annoy builds') →
  (str_in "lsh" program = true → build_lsh builds = build_lsh builds') →
  (str_in "sklearn" program = true → build_sklearn builds = build_sklearn builds') →
  main TOP_N ACC program builds queries index_gensim w
  = main TOP_N ACC program builds' queries index_gensim w.
Proof.
  intros Hflann Hannoy Hlsh Hsklearn. unfold main.
  unfold flann_block, annoy_block, lsh_block, sklearn_block.
  destruct (str_in "flann" program); [rewrite Hflann by done|];
    (destruct (str_in "annoy" program); [rewrite Hannoy by done|]);
    (destruct (str_in "lsh" program); [rewrite Hlsh by done|]);
    (destruct (str_in "sklearn" program); [rewrite Hsklearn by done|]);
    reflexivity.
Qed.

Lemma main_builds_named_only_witness :
  main 2 "high" "shootout_annoy.py" (builds_with flann_failing) unit_query 0%nat
       (world_of (exact_index two_docs))
  = main 2 "high" "shootout_annoy.py" (builds_with (flann_nested [1; 0])) unit_query
         0%nat (world_of (exact_index two_docs)).
Proof.
  apply (main_builds_named_only 2 "high" "shootout_annoy.py"
           (builds_with flann_failing) (builds_with (flann_nested [1; 0]))
           unit_query 0%nat (world_of (exact_index two_docs)));
    intros H; first [ reflexivity | vm_compute in H; discriminate H ].
Defined.

(** ** Edges of [get_accuracy] *)

Lemma zip_take_l {A B} (xs : list A) (ys : list B) :
  zip (take (length ys) xs) ys = zip xs ys.
Proof.
  revert ys. induction xs as [|x xs IH]; intros [|y ys]; simpl; by rewrite ?IH.
Qed.


(** X13: predictions beyond the number of queries are never looked at:
    [get_accuracy] runs exactly as on the first [len(queries)] predictions. *)
Theorem get_accuracy_surplus_predictions (TOP_N : Z) (predicted_ids : list value)
    (queries : list Vec) (gensim_index : ref)
    (expecteds : option (list (list Z * list Qc))) (w : World) :
  get_accuracy TOP_N predicted_ids queries gensim_index expecteds w
  = get_accuracy TOP_N (take (length queries) predicted_ids) queries
                 gensim_index expecteds w.
Proof. unfold get_accuracy, accuracy_loop. by rewrite zip_take_l. Qed.









(** ** Ground truth passed in *)

Lemma mapM_ext_exn {A B} (f g : A → exn + B) (l : list A) :
  (∀ x, f x = g x) → mapM f l = mapM g l.
Proof. intros Hfg. induction l as [|x l IH]; simpl; by rewrite ?Hfg, ?IH. Qed.

Lemma pure_loop_cons (TOP_N : Z) (s : Similarity)
    (expecteds : option (list (list Z * list Qc))) (locals : Qc * list Qc)
    (item : nat * (value * Vec)) (rest : list (nat * (value * Vec))) :
  pure_loop TOP_N s expecteds locals (item :: rest)
  = match pure_step TOP_N s expecteds locals item with
    | inr locals' => pure_loop TOP_N s expecteds locals' rest
    | inl e => inl e
    end.
Proof. reflexivity. Qed.

Lemma pure_loop_given_truth (TOP_N : Z) (s s' : Similarity)
    (truth : list (list Z * list Qc)) (items : list (nat * (value * Vec)))
    (locals : Qc * list Qc) :
  (∀ id1, vector_by_id s id1 = vector_by_id s' id1) →
  pure_loop TOP_N s (Some truth) locals items
  = pure_loop TOP_N s' (Some truth) locals items.
Proof.
  intros Hvec.
  assert (∀ query ids, recomputed_sims TOP_N s query ids
                       = recomputed_sims TOP_N s' query ids) as Hsims.
  { intros query ids. unfold recomputed_sims.
    by rewrite (mapM_ext_exn _ (λ id1, v ← vector_by_id s' id1; dot v query))
      by (intros id1; by rewrite Hvec). }
  revert locals. induction items as [|[i [p q]] items IH]; intros [c d]; [done|].
  rewrite !pure_loop_cons.
  assert (pure_step TOP_N s (Some truth) (c, d) (i, (p, q))
          = pure_step TOP_N s' (Some truth) (c, d) (i, (p, q))) as ->.
  { unfold pure_step, expected_of. unfold mbind, exn_bind.
    destruct (list_item truth i) as [e|[eids esims]]; [done|].
    destruct (iter_ids p) as [e|ids]; [done|]. by rewrite Hsims. }
  destruct (pure_step _ _ _ _ _) as [e|locals']; [done|]. apply IH.
Qed.

(** X16: with [expecteds] passed in, the only thing [get_accuracy] takes
    from the gensim index are the vectors it keeps: on two indexes that keep
    the same vectors it returns the same, or raises the same, whatever the
    indexes answer to queries. *)
Theorem get_accuracy_given_truth (TOP_N : Z) (predicted_ids : list value)
    (queries : list Vec) (gensim_index gensim_index' : ref)
    (truth : list (list Z * list Qc)) (w w' : World) :
  (∀ id1, vector_by_id (heap w gensim_index) id1
          = vector_by_id (heap w' gensim_index') id1) →
  (get_accuracy TOP_N predicted_ids queries gensim_index (Some truth) w).1
  = (get_accuracy TOP_N predicted_ids queries gensim_index' (Some truth) w').1.
Proof.
  intros Hvec. rewrite !get_accuracy_run. cbn [fst]. unfold pure_accuracy.
  by rewrite (pure_loop_given_truth TOP_N _
                (with_num_best (Some TOP_N) (heap w' gensim_index'))).
Qed.

Lemma get_accuracy_given_truth_witness :
  (get_accuracy 2 (ids_value <$> [[1; 0]]) unit_query 0%nat
                (Some [([0; 1], [1%Qc; half])]) (world_of (exact_index two_docs))).1
  = (get_accuracy 2 (ids_value <$> [[1; 0]]) unit_query 0%nat
                  (Some [([0; 1], [1%Qc; half])]) (world_of (mute_index two_docs))).1.
Proof.
  apply (get_accuracy_given_truth 2 (ids_value <$> [[1; 0]]) unit_query 0%nat 0%nat
           [([0; 1], [1%Qc; half])]
           (world_of (exact_index two_docs)) (world_of (mute_index two_docs))).
  reflexivity.
Defined.

Lemma pure_loop_supplied_truth (TOP_N : Z) (s : Similarity)
    (queries : list Vec) (rest : list (list Z * list Qc)) :
  Forall2 (λ query t, ∀ query_no, expected_of s None query_no query = inr t)
          queries rest →
  ∀ (seen : list (list Z * list Qc)) (predicted_ids : list value)
    (locals : Qc * list Qc),
    pure_loop TOP_N s (Some (seen ++ rest)) locals
              (enumerate_from (length seen) (zip predicted_ids queries))
    = pure_loop TOP_N s None locals
                (enumerate_from (length seen) (zip predicted_ids queries)).
Proof.
  induction 1 as [|query t queries rest Ht _ IH]; intros seen predicted_ids locals.
  { by rewrite zip_nil_r. }
  destruct predicted_ids as [|predicted predicted_ids]; [done|].
  cbn [zip zip_with enumerate_from]. rewrite !pure_loop_cons.
  assert (pure_step TOP_N s (Some (seen ++ t :: rest)) locals
                    (length seen, (predicted, query))
          = pure_step TOP_N s None locals (length seen, (predicted, query))) as ->.
  { destruct locals as [c d]. unfold pure_step.
    rewrite (Ht (length seen)).
    replace (expected_of s (Some (seen ++ t :: rest)) (length seen) query)
      with (inr t : exn + (list Z * list Qc)); [done|].
    simpl. unfold list_item. by rewrite list_lookup_middle. }
  destruct (pure_step _ _ _ _ _) as [e|locals']; [done|].
  specialize (IH (seen ++ [t]) predicted_ids locals').
  rewrite length_app, <-app_assoc in IH. simpl in IH.
  by rewrite Nat.add_1_r in IH.
Qed.

(** X17: passing as [expecteds] what the gensim index itself answers to the
    queries at [TOP_N], unzipped, changes nothing in what [get_accuracy]
    returns or raises: it gives what the call without [expecteds] gives. *)
Theorem get_accuracy_supplied_truth (TOP_N : Z) (predicted_ids : list value)
    (queries : list Vec) (gensim_index : ref)
    (truth : list (list Z * list Qc)) (w : World) :
  let s := with_num_best (Some TOP_N) (heap w gensim_index) in
  Forall2 (λ query t, ∀ query_no, expected_of s None query_no query = inr t)
          queries truth →
  (get_accuracy TOP_N predicted_ids queries gensim_index (Some truth) w).1
  = (get_accuracy TOP_N predicted_ids queries gensim_index None w).1.
Proof.
  intros s Htruth. rewrite !get_accuracy_run. cbn [fst]. fold s.
  unfold pure_accuracy, enumerate.
  by rewrite (pure_loop_supplied_truth TOP_N s queries truth Htruth []).
Qed.

Lemma get_accuracy_supplied_truth_witness :
  (get_accuracy 2 (ids_value <$> [[1; 0]]) unit_query 0%nat
                (Some [([0; 1], [1%Qc; half])]) (world_of (exact_index two_docs))).1
  = (get_accuracy 2 (ids_value <$> [[1; 0]]) unit_query 0%nat None
                  (world_of (exact_index two_docs))).1.
Proof.
  apply (get_accuracy_supplied_truth 2 (ids_value <$> [[1; 0]]) unit_query 0%nat
           [([0; 1], [1%Qc; half])] (world_of (exact_index two_docs))).
  repeat constructor.
Defined.

(** ** The average difference *)






(** ** The reference evaluated against itself, line 203 *)

Lemma gensim_predictions_answers (index : ref) (queries : list Vec)
    (answers : list (list (Z * Qc))) (w : World) :
  Forall2 (λ query pairs,
             getitem (heap w index) (num_best (heap w index)) query
             = inr (Best pairs)) queries answers →
  gensim_predictions index queries w
  = (inr ((λ pairs : list (Z * Qc), ids_value pairs.*1) <$> answers),
     extend_trace (replicate (length queries) (Queried index 1)) w).
Proof.
  unfold gensim_predictions. intros Hanswers. revert w answers Hanswers.
  induction queries as [|query queries IH]; intros w answers Hanswers.
  - apply Forall2_nil_inv_l in Hanswers as ->. simpl.
    by rewrite ret_run, extend_trace_nil.
  - apply Forall2_cons_inv_l in Hanswers as (pairs & rest & Hone & Hrest & ->).
    cbn [comprehension]. rewrite !bind_run, getitem_run, Hone. cbv beta iota.
    rewrite bind_run, lift_run. cbn [positions]. cbv beta iota.
    rewrite ret_run. cbv beta iota. rewrite bind_run.
    rewrite (IH (extend_trace [Queried index 1] w) rest Hrest). cbv beta iota.
    rewrite ret_run, extend_trace_app. done.
Qed.

Lemma Forall2_enumerate_from {A B} (R : A → nat * B → Prop) (start : nat)
    (xs : list A) (ys : list B) :
  Forall2 (λ x y, ∀ i, R x (i, y)) xs ys → Forall2 R xs (enumerate_from start ys).
Proof.
  intros Hall. revert start.
  induction Hall as [|x y xs ys Hone _ IH]; intros start; constructor; auto.
Qed.

(** An exact match on full ground truth scores precision 1 and difference
    0. *)
Lemma pure_accuracy_exact (TOP_N : Z) (s : Similarity)
    (expecteds : option (list (list Z * list Qc)))
    (predicted_ids : list (list Z)) (queries : list Vec) :
  0 < TOP_N →
  queries ≠ [] →
  Forall2 (λ predicted item,
             ∃ sims,
               expected_of s expecteds item.1 item.2 = inr (predicted, sims)
               ∧ Z.of_nat (length predicted) = TOP_N
               ∧ NoDup predicted
               ∧ Forall2 (λ id1 sim, (v ← vector_by_id s id1; dot v item.2) = inr sim)
                         predicted sims)
          predicted_ids (enumerate queries) →
  pure_accuracy TOP_N s expecteds (ids_value <$> predicted_ids) queries
  = inr (1%Qc, 0%Qc).
Proof.
  intros HK Hqueries Hmatch.
  apply enumerate_from_zip_Forall2 in Hmatch as [Hitems Hlen].
  set (items := enumerate (zip predicted_ids queries)) in *.
  set (zeros := λ _ : nat * (list Z * Vec), replicate (Z.to_nat TOP_N) 0%Qc).
  assert (pure_loop TOP_N s expecteds (0%Qc, []) (boxed <$> items)
          = inr ((0 + Qc_of_Z (Z.of_nat (hits s expecteds items)))%Qc,
                 [] ++ concat (zeros <$> items))) as Hloop.
  { apply pure_loop_runs. eapply Forall_impl; [exact Hitems|].
    intros [i [p q]]. cbn [fst snd]. intros (sims&Hexp&Hp&_&Hsims).
    assert (length sims = length p) as Hsp by (symmetry; by eapply Forall2_length).
    exists p, sims, sims. split; [done|]. split.
    - unfold recomputed_sims. rewrite (mapM_inr_Forall2 _ _ _ Hsims). simpl.
      unfold mret, exn_ret. f_equal. apply extend_zeros_full. lia.
    - rewrite array_add_same_length by by rewrite length_fmap.
      rewrite zip_with_opp. unfold zeros. f_equal. f_equal. lia. }
  assert (length items = length queries) as Hn
    by (unfold items; rewrite length_enumerate_zip; lia).
  assert (length (concat (zeros <$> items))
          = (Z.to_nat TOP_N * length queries)%nat) as Hd.
  { rewrite <-Hn. apply length_concat_const, Forall_forall. intros item _.
    unfold zeros. by rewrite length_replicate. }
  assert (Z.of_nat (hits s expecteds items) = TOP_N * Z.of_nat (length items))
    as Hhits.
  { apply hits_exact. eapply Forall_impl; [exact Hitems|].
    intros [i [p q]]. cbn [fst snd]. intros (sims&Hexp&Hp&Hnodup&_).
    unfold expected_ids. by rewrite Hexp. }
  apply pure_accuracy_inr.
  rewrite enumerate_zip_boxed. fold items.
  eexists _, _. split; [exact Hloop|].
  assert (length queries ≠ 0%nat) by by destruct queries.
  change ([] ++ concat (zeros <$> items)) with (concat (zeros <$> items)).
  split; [nia|]. split; [|split].
  - rewrite Qcplus_0_l, Hhits, Hn. symmetry. apply ratio_one.
    apply Qc_of_Z_nonzero. nia.
  - intros Hnil. rewrite Hnil in Hd. simpl in Hd. nia.
  - assert (sum (concat (zeros <$> items)) = 0%Qc) as ->
      by (apply sum_zeros; exact (concat_zeros (Z.to_nat TOP_N) items)).
    by rewrite Qcmult_0_r, ratio_zero.
Qed.

(** X19: the evaluation that line 203 leaves commented out, the gensim index
    measured against itself. Where the index is already set to [TOP_N]
    answers, and answers every query with [TOP_N] distinct ids whose
    similarities are the dot products with the vectors it keeps,
    [log_precision] returns, logs precision 1 and average difference 0 last,
    and has put every query to the index twice. *)
Theorem gensim_self_evaluation (TOP_N : Z) (ACC : string) (queries : list Vec)
    (index_gensim : ref) (answers : list (list (Z * Qc))) (w : World) :
  0 < TOP_N →
  queries ≠ [] →
  num_best (heap w index_gensim) = Some TOP_N →
  Forall2 (λ query pairs,
             getitem (heap w index_gensim) (Some TOP_N) query = inr (Best pairs)
             ∧ Z.of_nat (length pairs) = TOP_N
             ∧ NoDup pairs.*1
             ∧ Forall (λ pair, (v ← vector_by_id (heap w index_gensim) pair.1;
                                dot v query) = inr pair.2) pairs)
          queries answers →
  let run := log_precision TOP_N ACC "gensim_predictions" gensim_predictions
                           index_gensim queries index_gensim None w in
  run.1 = inr ()
  ∧ last (trace run.2)
    = Some (Info "%s precision=%.3f, avg diff=%.3f"
                 [AStr "gensim_predictions"; ANum 1%Qc; ANum 0%Qc])
  ∧ oracle_queries index_gensim (trace run.2)
    = (oracle_queries index_gensim (trace w) + 2 * length queries)%nat.
Proof.
  intros HK Hqueries Hbest Hanswers run. unfold run, log_precision.
  rewrite bind_run, info_run. cbv beta iota.
  set (w0 := extend_trace _ w).
  rewrite bind_run, (gensim_predictions_answers _ _ answers).
  2:{ change (heap w0 index_gensim) with (heap w index_gensim). rewrite Hbest.
      eapply Forall2_impl; [exact Hanswers|]. by intros query pairs (?&_). }
  cbv beta iota. set (w1 := extend_trace _ w0).
  pose proof (get_accuracy_queries TOP_N
                ((λ pairs : list (Z * Qc), ids_value pairs.*1) <$> answers)
                queries index_gensim w1) as Hasked.
  rewrite bind_run, get_accuracy_run. cbv zeta.
  rewrite get_accuracy_run in Hasked. cbv zeta in Hasked. cbn [fst snd] in Hasked.
  change (heap w1 index_gensim) with (heap w index_gensim) in *.
  set (s := with_num_best (Some TOP_N) (heap w index_gensim)) in *.
  assert (pure_accuracy TOP_N s None
            ((λ pairs : list (Z * Qc), ids_value pairs.*1) <$> answers) queries
          = inr (1%Qc, 0%Qc)) as Hexact.
  { assert ((λ pairs : list (Z * Qc), ids_value pairs.*1) <$> answers
            = ids_value <$> ((λ pairs : list (Z * Qc), pairs.*1) <$> answers)) as ->
      by (by rewrite <-list_fmap_compose).
    apply pure_accuracy_exact; [done|done|].
    apply Forall2_enumerate_from, Forall2_fmap_l, Forall2_flip.
    eapply Forall2_impl; [exact Hanswers|].
    intros query pairs (Hanswer & Hlen & Hnodup & Hsims) i.
    exists pairs.*2. cbn [fst snd]. split; [|split; [|split]].
    - unfold expected_of. change (num_best s) with (Some TOP_N).
      change (getitem s) with (getitem (heap w index_gensim)). rewrite Hanswer.
      destruct pairs; [simpl in Hlen; lia|done].
    - by rewrite length_fmap.
    - done.
    - clear -Hsims. induction Hsims as [|[id1 sim] pairs Hone _ IH]; by constructor. }
  rewrite Hexact in *. cbv beta iota. rewrite info_run. cbn [fst snd].
  assert (∀ evs w', trace (extend_trace evs w') = trace w' ++ evs) as Htrace by done.
  split; [done|]. split.
  - by rewrite Htrace, last_snoc.
  - rewrite Htrace, oracle_queries_app, (Hasked _ eq_refl).
    unfold w1, w0. rewrite !Htrace, !oracle_queries_app, oracle_queries_replicate.
    rewrite length_fmap, <-(Forall2_length _ _ _ Hanswers), Nat.min_id.
    unfold oracle_queries at 2 3. simpl. lia.
Qed.

Lemma gensim_self_evaluation_witness :
  let w := world_of (with_num_best (Some 2) (exact_index two_docs)) in
  let run := log_precision 2 "high" "gensim_predictions" gensim_predictions
                           0%nat unit_query 0%nat None w in
  run.1 = inr ()
  ∧ last (trace run.2)
    = Some (Info "%s precision=%.3f, avg diff=%.3f"
                 [AStr "gensim_predictions"; ANum 1%Qc; ANum 0%Qc])
  ∧ oracle_queries 0%nat (trace run.2)
    = (oracle_queries 0%nat (trace w) + 2 * length unit_query)%nat.
Proof.
  apply (gensim_self_evaluation 2 "high" unit_query 0%nat [[(0, 1%Qc); (1, half)]]
           (world_of (with_num_best (Some 2) (exact_index two_docs))));
    [lia|done|reflexivity|].
  repeat constructor; by_run.
Defined.

(** ** The lsh block, lines 246-261 *)

(** [log_precision] takes from the adapter only what it does on the given
    index and queries. *)
Lemma log_precision_ext {I} (TOP_N : Z) (ACC name : string)
    (method method' : I → list Vec → M (list value)) (index : I)
    (queries : list Vec) (gensim_index : ref)
    (expecteds : option (list (list Z * list Qc))) (w : World) :
  (let w0 := extend_trace
               [Info "computing accuracy of %s at k=%s, acc=%s"
                     [AStr name; AInt TOP_N; AStr ACC]] w in
   method index queries w0 = method' index queries w0) →
  log_precision TOP_N ACC name method index queries gensim_index expecteds w
  = log_precision TOP_N ACC name method' index queries gensim_index expecteds w.
Proof.
  intros Hsame. unfold log_precision. rewrite !bind_run, info_run. cbv beta iota.
  rewrite !bind_run. cbv zeta in Hsame. by rewrite Hsame.
Qed.

(** X20: in the main block the global that [lsh_predictions] reads is bound,
    just before, to the index that is passed to it: once the build-or-load
    step has returned an index, the lsh block runs as it would with an
    adapter that queries its parameter, and [NameError] is not raised for the
    global. *)
Theorem lsh_block_evaluates_built_index (TOP_N : Z) (ACC : string) (builds : Builds)
    (queries : list Vec) (index_gensim : ref) (built : LshIndex) (w w1 : World) :
  build_lsh builds w = (inr built, w1) →
  lsh_block TOP_N ACC builds queries index_gensim w
  = (info "finished lsh index" [];;
     log_precision TOP_N ACC "lsh_predictions"
       (λ index queries,
          lift (mapM (λ query, found ← Find index query;
                               mret (ids_value (slice_to TOP_N found).*1)) queries))
       built queries index_gensim None;;
     lsh_1by1 TOP_N ACC built queries)
      (assign_index_lsh built w1).2.
Proof.
  intros Hbuild. unfold lsh_block. rewrite bind_run, Hbuild. cbv beta iota.
  rewrite bind_run. unfold assign_index_lsh at 1. cbv beta iota. cbn [snd].
  rewrite !bind_run, !info_run. cbv beta iota. rewrite !bind_run.
  rewrite (log_precision_ext _ _ _ (lsh_predictions TOP_N)
             (λ index queries,
                lift (mapM (λ query, found ← Find index query;
                                     mret (ids_value (slice_to TOP_N found).*1))
                           queries))); [done|].
  cbv zeta. by rewrite lsh_predictions_run, lift_run.
Qed.

Lemma lsh_block_evaluates_built_index_witness :
  let builds := {| build_flann := raise (LibraryError "ImportError");
                   build_annoy := raise (LibraryError "ImportError");
                   build_lsh := mret (lsh_finding [(0, 1%Qc); (1, half)]);
                   build_sklearn := raise (LibraryError "ImportError") |} in
  let built := lsh_finding [(0, 1%Qc); (1, half)] in
  let w := world_of (exact_index two_docs) in
  lsh_block 2 "high" builds unit_query 0%nat w
  = (info "finished lsh index" [];;
     log_precision 2 "high" "lsh_predictions"
       (λ index queries,
          lift (mapM (λ query, found ← Find index query;
                               mret (ids_value (slice_to 2 found).*1)) queries))
       built unit_query 0%nat None;;
     lsh_1by1 2 "high" built unit_query)
      (assign_index_lsh built w).2.
Proof.
  intros builds built w.
  apply (lsh_block_evaluates_built_index 2 "high" builds unit_query 0%nat built w w).
  reflexivity.
Defined.
